(** * Stock Insights Dashboard: the route handlers and the percentage helpers

    A shallow embedding of
    - the [POST] handler of [app/api/stock-insights/route.ts],
    - the [GET] handler of [app/api/nse-symbols/route.ts],
    - [pctFromHigh] and [pctFromLow] of [lib/calculations.ts],
    together with the parts of the JavaScript runtime they call
    ([String.prototype.trim], [toUpperCase], [split], [Array.prototype.join],
    [Set], [Promise.all]).  The route takes [buildStockInsight] and
    [fetchBulkDealsForSymbol] as collaborators ([Providers]); module
    [FinanceApi] gives the ones the specification describes.

    Conventions of the embedding.
    - A JavaScript string is a [string]; its characters are read as 7-bit
      ASCII text, the alphabet of ticker symbols.  Case mapping and white
      space follow ECMAScript on that range; a code above 127 is kept as it
      is and is not white space.
    - A JavaScript number is a binary64 [float].
    - A promise is represented by the way it settles ([settled]); an
      exception by the completion [Throw]. *)

From Stdlib Require Import Bool List Ascii String ZArith Lia Floats.
From Stdlib Require Import DecimalString.
From Stdlib Require Import Sorting.Sorted Sorting.Permutation.
Import ListNotations.

Open Scope bool_scope.
Open Scope string_scope.
Open Scope list_scope.

(* ================================================================= *)
(** ** The string primitives of the runtime *)

Module Js.

(** ECMAScript [WhiteSpace] and [LineTerminator] on the ASCII range:
    TAB, LF, VT, FF, CR and SPACE. *)
Definition is_white_space (c : ascii) : bool :=
  let n := N_of_ascii c in
  ((9 <=? n)%N && (n <=? 13)%N) || (n =? 32)%N.

Definition is_lower (c : ascii) : bool :=
  let n := N_of_ascii c in (97 <=? n)%N && (n <=? 122)%N.

Definition toUpperChar (c : ascii) : ascii :=
  if is_lower c then ascii_of_N (N_of_ascii c - 32) else c.

(** [s.toUpperCase()] *)
Fixpoint toUpperCase (s : string) : string :=
  match s with
  | EmptyString => EmptyString
  | String c r => String (toUpperChar c) (toUpperCase r)
  end.

(** [s.trimStart()] *)
Fixpoint trimStart (s : string) : string :=
  match s with
  | EmptyString => EmptyString
  | String c r => if is_white_space c then trimStart r else s
  end.

(** [s.trimEnd()]: a white-space character goes when everything after it
    goes. *)
Fixpoint trimEnd (s : string) : string :=
  match s with
  | EmptyString => EmptyString
  | String c r =>
      match trimEnd r with
      | EmptyString => if is_white_space c then EmptyString else String c EmptyString
      | r' => String c r'
      end
  end.

(** [s.trim()] *)
Definition trim (s : string) : string := trimEnd (trimStart s).

(** [s.split(sep)] for a one-character separator: the pieces between the
    separators, the empty ones included; [[""]] for the empty string. *)
Fixpoint split (sep : ascii) (s : string) : list string :=
  match s with
  | EmptyString => [EmptyString]
  | String c r =>
      if Ascii.eqb c sep then EmptyString :: split sep r
      else match split sep r with
           | piece :: pieces => String c piece :: pieces
           | [] => [String c EmptyString]
           end
  end.

(** [Boolean(s)] for a string: the empty string is the only falsy one. *)
Definition Boolean (s : string) : bool :=
  match s with EmptyString => false | String _ _ => true end.

(** [s.length > 0] *)
Definition nonempty (s : string) : bool := (0 <? String.length s)%nat.

(** A [Set] of strings, as the list of its members in insertion order. *)
Definition mem (x : string) (s : list string) : bool :=
  existsb (String.eqb x) s.

(** [set.add(x)] *)
Definition Set_add (s : list string) (x : string) : list string :=
  if mem x s then s else s ++ [x].

(** [new Set(xs)] adds the items of [xs] from left to right. *)
Definition new_Set (xs : list string) : list string :=
  fold_left Set_add xs [].

(** [Array.from(set)] lists the members in insertion order. *)
Definition Array_from (s : list string) : list string := s.

(** [a.join(",")] once every element has been turned into a string. *)
Fixpoint join (pieces : list string) : string :=
  match pieces with
  | [] => EmptyString
  | [p] => p
  | p :: rest => p ++ "," ++ join rest
  end.

(** [s.endsWith(suffix)]: [suffix] is [s] or the end of what follows its
    first character. *)
Fixpoint endsWith (s suffix : string) : bool :=
  String.eqb s suffix ||
  match s with
  | EmptyString => false
  | String _ r => endsWith r suffix
  end.

(** [s.startsWith(p)] *)
Definition startsWith (s p : string) : bool := String.prefix p s.

(** [a.join(sep)] on strings. *)
Fixpoint join_with (sep : string) (pieces : list string) : string :=
  match pieces with
  | [] => EmptyString
  | [p] => p
  | p :: rest => p ++ sep ++ join_with sep rest
  end.

(** [a[i]] for an integer [i]; [None] is [undefined]. *)
Definition item {A : Type} (a : list A) (i : Z) : option A :=
  if (i <? 0)%Z then None else nth_error a (Z.to_nat i).

(** [a[a.length - 1]] *)
Definition last_item {A : Type} (a : list A) : option A :=
  item a (Z.of_nat (List.length a) - 1).

(** [a[a.length - 1] = x]; on the empty array the assignment makes the
    property [-1], which is no element. *)
Definition set_last_item {A : Type} (a : list A) (x : A) : list A :=
  match a with
  | [] => []
  | _ => removelast a ++ [x]
  end.

End Js.

(* ================================================================= *)
(** ** JSON values, completions and promises *)

(** What [JSON.parse] produces.  A number carries its [ToString] text, the
    only thing the handler observes of it; an object lists its members in
    source order. *)
#[warnings="-register-all"]
Inductive json : Type :=
| JNull
| JBool (b : bool)
| JNum (text : string)
| JStr (s : string)
| JArr (items : list json)
| JObj (members : list (string * json)).

(** A thrown value: [err?.message] is [None] when the value is [null],
    [undefined] or has no [message]. *)
Record JsError : Type := mkError { message : option string }.

(** The outcome of evaluating a piece of code. *)
Inductive completion (A : Type) : Type :=
| Normal (a : A)
| Throw (e : JsError).
Arguments Normal {A} a.
Arguments Throw {A} e.

Definition bind {A B : Type} (c : completion A) (k : A -> completion B)
  : completion B :=
  match c with
  | Normal a => k a
  | Throw e => Throw e
  end.

Notation "x <- c ;; k" := (bind c (fun x => k))
  (at level 61, c at next level, right associativity).

(** The way a promise settles. *)
Inductive settled (A : Type) : Type :=
| Fulfilled (a : A)
| Rejected (e : JsError).
Arguments Fulfilled {A} a.
Arguments Rejected {A} e.

(** [await p] *)
Definition await {A : Type} (p : settled A) : completion A :=
  match p with
  | Fulfilled a => Normal a
  | Rejected e => Throw e
  end.

(** [Promise.all(ps)]: the values in the order of [ps] when all fulfil.  When
    several reject the runtime keeps the reason of the one that rejects first
    in time; the model takes them in list order. *)
Fixpoint Promise_all {A : Type} (ps : list (settled A)) : settled (list A) :=
  match ps with
  | [] => Fulfilled []
  | Rejected e :: _ => Rejected e
  | Fulfilled a :: rest =>
      match Promise_all rest with
      | Fulfilled vs => Fulfilled (a :: vs)
      | Rejected e => Rejected e
      end
  end.

(** The member of an object under a key; [JSON.parse] keeps the last of
    several members with one key. *)
Fixpoint get_member (key : string) (members : list (string * json))
  : option json :=
  match members with
  | [] => None
  | (k, v) :: rest =>
      match get_member key rest with
      | Some v' => Some v'
      | None => if String.eqb k key then Some v else None
      end
  end.

(** The completions of a list, from left to right. *)
Fixpoint sequence {A : Type} (cs : list (completion A)) : completion (list A) :=
  match cs with
  | [] => Normal []
  | c :: rest => a <- c ;; (vs <- sequence rest ;; Normal (a :: vs))
  end.

(** The message of the [TypeError] of [OrdinaryToPrimitive] (V8). *)
Definition not_primitive_message : string :=
  "Cannot convert object to primitive value".

(** [ToString(v)], with [Array.prototype.join] for arrays: inside an array
    [null] is the empty string.  A parsed object is ["[object Object]"],
    unless a member named [toString] hides [Object.prototype.toString]: a
    JSON value is not callable, [valueOf] gives no primitive, and the
    conversion throws. *)
Fixpoint ToString (v : json) : completion string :=
  match v with
  | JNull => Normal "null"
  | JBool true => Normal "true"
  | JBool false => Normal "false"
  | JNum text => Normal text
  | JStr s => Normal s
  | JArr items =>
      pieces <- sequence (map (fun x => match x with
                                        | JNull => Normal EmptyString
                                        | _ => ToString x
                                        end) items) ;;
      Normal (Js.join pieces)
  | JObj members =>
      match get_member "toString" members with
      | Some _ => Throw (mkError (Some not_primitive_message))
      | None => Normal "[object Object]"
      end
  end.

(** [items.join(",")] *)
Definition Array_join (items : list json) : completion string :=
  ToString (JArr items).

(* ================================================================= *)
(** ** lib/calculations.ts *)

(** [isFinite(x)] on a number. *)
Definition isFinite (x : float) : bool := PrimFloat.is_finite x.

(** [NaN] *)
Definition NaN : float := PrimFloat.nan.

Definition pctFromHigh (currentPrice high52 : float) : float :=
  if negb (isFinite currentPrice) || negb (isFinite high52)
     || PrimFloat.eqb high52 0%float
  then NaN
  else (((currentPrice - high52) / high52) * 100)%float.

Definition pctFromLow (currentPrice low52 : float) : float :=
  if negb (isFinite currentPrice) || negb (isFinite low52)
     || PrimFloat.eqb low52 0%float
  then NaN
  else (((currentPrice - low52) / low52) * 100)%float.

(* ================================================================= *)
(** ** lib/types.ts *)

Inductive Market : Type := NSE | BSE | US | UNKNOWN.

(** [publishedAt] is a point in time, in milliseconds since the epoch. *)
Record NewsItem : Type := mkNews {
  title : string;
  source : string;
  publishedAt : Z;
  url : option string
}.

Record BulkDeal : Type := mkDeal {
  date : string;
  buyer : string;
  seller : string;
  quantity : float;
  price : float;
  exchange : string
}.

Record StockInsight : Type := mkInsight {
  symbol : string;
  market : Market;
  currentPrice : option float;
  high52 : option float;
  low52 : option float;
  pctHigh : option float;   (* the field [pctFromHigh] *)
  pctLow : option float;    (* the field [pctFromLow] *)
  latestNews : list NewsItem;
  bulkDeals : list BulkDeal;
  error : option string
}.

(** [{ ...base, bulkDeals }] *)
Definition with_bulkDeals (base : StockInsight) (deals : list BulkDeal)
  : StockInsight :=
  {| symbol := symbol base; market := market base;
     currentPrice := currentPrice base; high52 := high52 base;
     low52 := low52 base; pctHigh := pctHigh base; pctLow := pctLow base;
     latestNews := latestNews base; bulkDeals := deals;
     error := error base |}.

(* ================================================================= *)
(** ** app/api/stock-insights/route.ts *)

(** The two functions the route imports from [lib/], each given by the way
    its promise settles for a symbol. *)
Record Providers : Type := mkProviders {
  buildStockInsight : string -> settled StockInsight;
  fetchBulkDealsForSymbol : string -> settled (list BulkDeal)
}.

(** The request body as [req.json()] sees it. *)
Inductive RequestBody : Type :=
| InvalidJson
| ParsedJson (v : json).

Inductive Payload : Type :=
| ResultsPayload (results : list StockInsight)
| ErrorPayload (error : string).

Record Response : Type := mkResponse { status : Z; payload : Payload }.

(** A call of one of the two imported functions. *)
Inductive Call : Type :=
| CallBuildStockInsight (symbol : string)
| CallFetchBulkDeals (symbol : string).

(** [await req.json().catch(() => ({}))] *)
Definition read_body (req : RequestBody) : json :=
  match req with
  | InvalidJson => JObj []
  | ParsedJson v => v
  end.

(** The message of the [TypeError] of reading a property of [null] (V8). *)
Definition null_read_message : string :=
  "Cannot read properties of null (reading 'symbols')".

(** [body.symbols]; [None] is [undefined]. *)
Definition body_symbols (body : json) : completion (option json) :=
  match body with
  | JNull => Throw (mkError (Some null_read_message))
  | JObj members => Normal (get_member "symbols" members)
  | _ => Normal None
  end.

(** [(Array.isArray(x) && x.join(",")) || (typeof x === "string" ? x : "")] *)
Definition raw_symbols (x : option json) : completion string :=
  let otherwise :=
    match x with
    | Some (JStr s) => s
    | _ => EmptyString
    end in
  match x with
  | Some (JArr items) =>
      j <- Array_join items ;;
      Normal (if Js.Boolean j then j else otherwise)
  | _ => Normal otherwise
  end.

(** [raw.split(",").map(s => s.trim().toUpperCase()).filter(Boolean)] *)
Definition symbol_tokens (raw : string) : list string :=
  filter Js.Boolean
    (map (fun s => Js.toUpperCase (Js.trim s)) (Js.split "," raw)).

(** [Array.from(new Set(symbols))] *)
Definition unique_symbols (symbols : list string) : list string :=
  Js.Array_from (Js.new_Set symbols).

(** The normalisation of a raw input string, end to end. *)
Definition normalize (raw : string) : list string :=
  unique_symbols (symbol_tokens raw).

(** The callback given to [unique.map]. *)
Definition insight_task (P : Providers) (symbol : string)
  : settled StockInsight :=
  match buildStockInsight P symbol with
  | Rejected e => Rejected e
  | Fulfilled base =>
      match fetchBulkDealsForSymbol P symbol with
      | Rejected e => Rejected e
      | Fulfilled deals => Fulfilled (with_bulkDeals base deals)
      end
  end.

(** The calls the callback makes: the second one only once the first
    promise has fulfilled. *)
Definition task_calls (P : Providers) (symbol : string) : list Call :=
  CallBuildStockInsight symbol ::
  match buildStockInsight P symbol with
  | Fulfilled _ => [CallFetchBulkDeals symbol]
  | Rejected _ => []
  end.

Definition no_symbols_response : Response :=
  {| status := 400; payload := ErrorPayload "No symbols provided." |}.

Definition generic_message : string :=
  "Unexpected server error while fetching stock insights.".

(** The value of [raw] for a request. *)
Definition request_raw (req : RequestBody) : completion string :=
  x <- body_symbols (read_body req) ;; raw_symbols x.

(** The [try] block, with the calls it makes.  The callbacks run for every
    symbol, whatever the others do; the calls are listed symbol by symbol. *)
Definition POST_try (P : Providers) (req : RequestBody)
  : completion Response * list Call :=
  match request_raw req with
  | Throw e => (Throw e, [])
  | Normal raw =>
      let symbols := symbol_tokens raw in
      if (List.length symbols =? 0)%nat then (Normal no_symbols_response, [])
      else
        let unique := unique_symbols symbols in
        (insights <- await (Promise_all (map (insight_task P) unique)) ;;
         Normal {| status := 200; payload := ResultsPayload insights |},
         flat_map (task_calls P) unique)
  end.

(** The [catch] clause: [err?.message ?? "Unexpected server error ..."]. *)
Definition on_error (err : JsError) : Response :=
  {| status := 500;
     payload := ErrorPayload match message err with
                             | Some m => m
                             | None => generic_message
                             end |}.

Definition POST (P : Providers) (req : RequestBody) : Response :=
  match fst (POST_try P req) with
  | Normal response => response
  | Throw err => on_error err
  end.

Definition POST_calls (P : Providers) (req : RequestBody) : list Call :=
  snd (POST_try P req).

(** A request whose body is the object [{ "symbols": v }]. *)
Definition with_symbols (v : json) : RequestBody :=
  ParsedJson (JObj [("symbols", v)]).

(* ================================================================= *)
(** ** app/api/nse-symbols/route.ts *)

(** [readFileSync(csvPath, "utf-8")] *)
Inductive FileRead : Type :=
| FileContent (text : string)
| ReadThrows (e : JsError).

Record SymbolsResponse : Type := mkSymbols {
  symbols_status : Z;
  symbols_error : option string;
  symbols_list : list string
}.

Definition newline : ascii := "010"%char.

(** The symbols parsed from the text of the file. *)
Definition parse_csv (fileContent : string) : list string :=
  let lines := Js.split newline (Js.trim fileContent) in
  map Js.toUpperCase
    (filter Js.nonempty (map Js.trim (skipn 1 lines))).

Definition GET (file : FileRead) : SymbolsResponse :=
  match file with
  | FileContent fileContent =>
      {| symbols_status := 200; symbols_error := None;
         symbols_list := parse_csv fileContent |}
  | ReadThrows _ =>
      {| symbols_status := 500;
         symbols_error := Some "Failed to load stock symbols";
         symbols_list := [] |}
  end.

(* ================================================================= *)
(** ** lib/financeApi.ts and lib/bulkDeals.ts *)

Module FinanceApi.

Record PriceAndRange : Type := mkRange {
  range_currentPrice : float;
  range_high52 : float;
  range_low52 : float
}.

(** The outcome of [fetchPriceAndRange]: the three prices, or the message
    of the provider's failure. *)
Inductive PriceOutcome : Type :=
| PriceOk (p : PriceAndRange)
| ProviderError (msg : string).

(** What the outside world answers for a symbol: the price provider, the
    news provider ([None] when it fails) and the market tag. *)
Record Upstream : Type := mkUpstream {
  fetchPriceAndRange : string -> PriceOutcome;
  newsFeed : string -> option (list NewsItem);
  marketOf : string -> Market
}.

(** Insertion into a list ordered by publish time, most recent first. *)
Fixpoint insert_desc (n : NewsItem) (l : list NewsItem) : list NewsItem :=
  match l with
  | [] => [n]
  | m :: rest =>
      if (publishedAt m <=? publishedAt n)%Z then n :: l
      else m :: insert_desc n rest
  end.

Definition sort_desc (l : list NewsItem) : list NewsItem :=
  fold_right insert_desc [] l.

(** Modelled from the spec: [fetchNewsForSymbol] of [lib/financeApi.ts],
    which is not among the sources.  The entries of the provider are
    ordered by publish time, most recent first, and cut to three; a
    failure of the provider gives the empty list. *)
Definition fetchNewsForSymbol (U : Upstream) (symbol : string)
  : list NewsItem :=
  match newsFeed U symbol with
  | Some items => firstn 3 (sort_desc items)
  | None => []
  end.

(** Modelled from the spec: [fetchBulkDealsForSymbol] of [lib/bulkDeals.ts],
    which is not among the sources.  It always gives the empty list. *)
Definition fetchBulkDealsForSymbol (symbol : string) : list BulkDeal := [].

(** Modelled from the spec: [buildStockInsight] of [lib/financeApi.ts],
    which is not among the sources.  The record merges the price, news and
    bulk-deal fetches; a failed price fetch sets [error] and leaves the
    numbers null, while news and deals stay as fetched. *)
Definition buildStockInsight (U : Upstream) (symbol : string)
  : StockInsight :=
  let news := fetchNewsForSymbol U symbol in
  let deals := fetchBulkDealsForSymbol symbol in
  match fetchPriceAndRange U symbol with
  | PriceOk p =>
      let cp := range_currentPrice p in
      {| symbol := symbol; market := marketOf U symbol;
         currentPrice := Some cp;
         high52 := Some (range_high52 p);
         low52 := Some (range_low52 p);
         pctHigh := Some (pctFromHigh cp (range_high52 p));
         pctLow := Some (pctFromLow cp (range_low52 p));
         latestNews := news; bulkDeals := deals; error := None |}
  | ProviderError msg =>
      {| symbol := symbol; market := marketOf U symbol;
         currentPrice := None; high52 := None; low52 := None;
         pctHigh := None; pctLow := None;
         latestNews := news; bulkDeals := deals; error := Some msg |}
  end.

(** The two imports of the route, as the spec describes them: neither
    rejects. *)
Definition providers (U : Upstream) : Providers :=
  mkProviders (fun s => Fulfilled (buildStockInsight U s))
              (fun s => Fulfilled (fetchBulkDealsForSymbol s)).

End FinanceApi.

(* ================================================================= *)
(** ** app/page.tsx *)

Module HomePage.

(** [value == null || !Number.isFinite(value)] *)
Definition not_a_value (value : option float) : bool :=
  match value with
  | None => true
  | Some v => negb (isFinite v)
  end.

Definition classifyDelta (value : option float) : string :=
  match value with
  | None => "delta-neutral"
  | Some v =>
      if negb (isFinite v) then "delta-neutral"
      else if (0 <? v)%float then "delta-positive"
      else if (v <? 0)%float then "delta-negative"
      else "delta-neutral"
  end.

(** [upper.split(".")[0]] is always there: [split] gives a piece. *)
Definition stripExchangeSuffix (symbol : string) : string :=
  let upper := Js.toUpperCase symbol in
  if Js.endsWith upper ".NS" || Js.endsWith upper ".BSE"
     || Js.endsWith upper ".BO"
  then hd EmptyString (Js.split "." upper)
  else upper.

(** The state of the page: one field per [useState]. *)
Record State : Type := mkState {
  symbolsInput : string;
  loading : bool;
  apiError : option string;
  validationError : option string;
  results : list StockInsight;
  stockSuggestions : list string;
  currentWord : string;
  showSuggestions : bool;
  selectedIndex : Z
}.

(** The state a fresh page starts in. *)
Definition initial : State :=
  {| symbolsInput := "RELIANCE, TCS"; loading := false; apiError := None;
     validationError := None; results := []; stockSuggestions := [];
     currentWord := EmptyString; showSuggestions := false;
     selectedIndex := 0 |}.

(** [fetchSymbols] once the request to [/api/nse-symbols] has settled:
    [Throw] when [fetch] or [res.json()] fails or the body is [null],
    otherwise the [symbols] member of the body when it is an array. *)
Definition fetchSymbols (st : State) (r : completion (option (list string)))
  : State :=
  let setStockSuggestions (l : list string) :=
    {| symbolsInput := symbolsInput st; loading := loading st;
       apiError := apiError st; validationError := validationError st;
       results := results st; stockSuggestions := l;
       currentWord := currentWord st;
       showSuggestions := showSuggestions st;
       selectedIndex := selectedIndex st |} in
  match r with
  | Normal (Some symbols) => setStockSuggestions symbols
  | Normal None => st
  | Throw _ => setStockSuggestions []
  end.

(** The memo [activeSymbols] of a text. *)
Definition activeSymbols (symbolsInput : string) : list string :=
  filter Js.Boolean
    (map (fun s => Js.toUpperCase (Js.trim s)) (Js.split "," symbolsInput)).

Definition extractCurrentWord (text : string) : string :=
  let parts := Js.split "," text in
  let lastPart :=
    match Js.last_item parts with
    | Some part => if Js.Boolean (Js.trim part) then Js.trim part
                   else EmptyString
    | None => EmptyString
    end in
  Js.toUpperCase lastPart.

(** The filter both [filteredSuggestions] and [handleInputChange] apply. *)
Definition matching (word : string) (suggestions : list string) : list string :=
  firstn 8
    (filter (fun s => Js.startsWith (Js.toUpperCase s) word) suggestions).

(** The memo [filteredSuggestions]. *)
Definition filteredSuggestions (st : State) : list string :=
  if negb (Js.Boolean (currentWord st))
     || (List.length (stockSuggestions st) =? 0)%nat
  then []
  else matching (currentWord st) (stockSuggestions st).

Definition handleInputChange (st : State) (value : string) : State :=
  let word := extractCurrentWord value in
  let filtered :=
    if (0 <? String.length word)%nat
       && (0 <? List.length (stockSuggestions st))%nat
    then matching word (stockSuggestions st)
    else [] in
  {| symbolsInput := value; loading := loading st; apiError := apiError st;
     validationError := validationError st; results := results st;
     stockSuggestions := stockSuggestions st;
     currentWord := word;
     showSuggestions := (0 <? List.length filtered)%nat;
     selectedIndex := 0 |}.

(** The new text of [insertSuggestion]. *)
Definition inserted (symbolsInput suggestion : string) : string :=
  let parts := Js.set_last_item (Js.split "," symbolsInput) suggestion in
  (Js.join_with ", " parts
   ++ (if (1 <? List.length parts)%nat then ", " else EmptyString))%string.

Definition insertSuggestion (st : State) (suggestion : string) : State :=
  {| symbolsInput := inserted (symbolsInput st) suggestion;
     loading := loading st; apiError := apiError st;
     validationError := validationError st; results := results st;
     stockSuggestions := stockSuggestions st;
     currentWord := EmptyString;
     showSuggestions := false;
     selectedIndex := 0 |}.

(** [setSelectedIndex(i)] *)
Definition setSelectedIndex (st : State) (i : Z) : State :=
  {| symbolsInput := symbolsInput st; loading := loading st;
     apiError := apiError st; validationError := validationError st;
     results := results st; stockSuggestions := stockSuggestions st;
     currentWord := currentWord st; showSuggestions := showSuggestions st;
     selectedIndex := i |}.

(** [setShowSuggestions(b)] *)
Definition setShowSuggestions (st : State) (b : bool) : State :=
  {| symbolsInput := symbolsInput st; loading := loading st;
     apiError := apiError st; validationError := validationError st;
     results := results st; stockSuggestions := stockSuggestions st;
     currentWord := currentWord st; showSuggestions := b;
     selectedIndex := selectedIndex st |}.

(** [handleKeyDown] for the key [e.key]: the new state, and whether
    [e.preventDefault()] was called. *)
Definition handleKeyDown (st : State) (key : string) : State * bool :=
  let filtered := filteredSuggestions st in
  if negb (showSuggestions st) || (List.length filtered =? 0)%nat
  then (st, false)
  else if String.eqb key "ArrowDown" then
    (setSelectedIndex st
       (let prev := selectedIndex st in
        if (prev <? Z.of_nat (List.length filtered) - 1)%Z
        then (prev + 1)%Z else prev),
     true)
  else if String.eqb key "ArrowUp" then
    (setSelectedIndex st
       (let prev := selectedIndex st in
        if (0 <? prev)%Z then (prev - 1)%Z else 0%Z),
     true)
  else
    match (if String.eqb key "Enter"
           then match Js.item filtered (selectedIndex st) with
                | Some s => if Js.Boolean s then Some s else None
                | None => None
                end
           else None) with
    | Some suggestion => (insertSuggestion st suggestion, true)
    | None =>
        if String.eqb key "Escape" then (setShowSuggestions st false, false)
        else (st, false)
    end.

(** What the user does to the text box and its dropdown.  A row of the
    dropdown exists, to be hovered or clicked, when the dropdown is shown
    and the row is one of [filteredSuggestions]. *)
Inductive Event : Type :=
| InputChange (value : string)
| KeyDown (key : string)
| MouseEnter (idx : nat)
| ClickSuggestion (idx : nat)
| ClickOutside.

Definition step (st : State) (ev : Event) : State :=
  match ev with
  | InputChange value => handleInputChange st value
  | KeyDown key => fst (handleKeyDown st key)
  | MouseEnter idx =>
      if showSuggestions st
         && (idx <? List.length (filteredSuggestions st))%nat
      then setSelectedIndex st (Z.of_nat idx)
      else st
  | ClickSuggestion idx =>
      match (if showSuggestions st
             then nth_error (filteredSuggestions st) idx else None) with
      | Some suggestion => insertSuggestion st suggestion
      | None => st
      end
  | ClickOutside => setShowSuggestions st false
  end.

Definition run (st : State) (events : list Event) : State :=
  fold_left step events st.

(** The body of the response as [res.json()] gives it, typed [ApiResponse];
    an absent member is [None]. *)
Record ApiResponse : Type := mkApi {
  api_results : option (list StockInsight);
  api_error : option string
}.

(** What [fetch] and [res.json()] come to: [fetch] rejects, or there is a
    response with its status, whose body fails to parse, is [null], or is an
    object. *)
Inductive FetchResult : Type :=
| FetchRejects (e : JsError)
| FetchResolves (status : Z) (json : completion (option ApiResponse)).

(** [res.ok] *)
Definition ok (status : Z) : bool := (200 <=? status)%Z && (status <=? 299)%Z.

Definition status_text (status : Z) : string :=
  NilEmpty.string_of_int (Z.to_int status).

(** The [try] block of [handleFetch]. *)
Definition fetched (r : FetchResult) : completion (list StockInsight) :=
  match r with
  | FetchRejects e => Throw e
  | FetchResolves status body =>
      json <- body ;;
      if negb (ok status) then
        Throw (mkError (Some
          match (match json with Some a => api_error a | None => None end) with
          | Some m => if Js.Boolean m then m
                      else ("Request failed with status " ++ status_text status)%string
          | None => ("Request failed with status " ++ status_text status)%string
          end))
      else
        match json with
        | None =>
            Throw (mkError
                     (Some "Cannot read properties of null (reading 'results')"))
        | Some a =>
            Normal match api_results a with
                   | Some rs => rs
                   | None => []
                   end
        end
  end.

(** [handleFetch]: the new state, and the request handed to [fetch], if
    any.  [fetch] is the network and the server behind it. *)
Definition handleFetch (fetch : RequestBody -> FetchResult) (st : State)
  : State * option RequestBody :=
  if (List.length (activeSymbols (symbolsInput st)) =? 0)%nat then
    ({| symbolsInput := symbolsInput st; loading := loading st;
        apiError := None;
        validationError := Some "Please enter at least one stock symbol.";
        results := results st; stockSuggestions := stockSuggestions st;
        currentWord := currentWord st;
        showSuggestions := showSuggestions st;
        selectedIndex := selectedIndex st |}, None)
  else
    let request := with_symbols (JStr (symbolsInput st)) in
    match fetched (fetch request) with
    | Normal rs =>
        ({| symbolsInput := symbolsInput st; loading := false;
            apiError := None; validationError := None;
            results := rs; stockSuggestions := stockSuggestions st;
            currentWord := currentWord st;
            showSuggestions := showSuggestions st;
            selectedIndex := selectedIndex st |}, Some request)
    | Throw err =>
        ({| symbolsInput := symbolsInput st; loading := false;
            apiError := Some match message err with
                             | Some m => m
                             | None => "Failed to fetch stock insights."
                             end;
            validationError := None;
            results := []; stockSuggestions := stockSuggestions st;
            currentWord := currentWord st;
            showSuggestions := showSuggestions st;
            selectedIndex := selectedIndex st |}, Some request)
    end.

End HomePage.

(* ================================================================= *)
(** ** The vocabulary of the specification *)

Definition first_char (s : string) : option ascii :=
  match s with
  | EmptyString => None
  | String c _ => Some c
  end.

Fixpoint last_char (s : string) : option ascii :=
  match s with
  | EmptyString => None
  | String c EmptyString => Some c
  | String _ r => last_char r
  end.

(** No white space at either end. *)
Definition trimmed (s : string) : Prop :=
  (forall c, first_char s = Some c -> Js.is_white_space c = false) /\
  (forall c, last_char s = Some c -> Js.is_white_space c = false).

(** No lower-case letter anywhere. *)
Definition upper_case (s : string) : Prop :=
  forall c, In c (list_ascii_of_string s) -> Js.is_lower c = false.

(** Made of white space only (the empty string included). *)
Fixpoint all_white_space (s : string) : bool :=
  match s with
  | EmptyString => true
  | String c r => Js.is_white_space c && all_white_space r
  end.

(** Nothing is left of the string once trimmed. *)
Definition is_blank (s : string) : bool := negb (Js.Boolean (Js.trim s)).

(** The list without the item [x]. *)
Definition without (x : string) (l : list string) : list string :=
  filter (fun y => negb (String.eqb x y)) l.

(** The items of [l] that are not members of [acc]. *)
Definition fresh (acc l : list string) : list string :=
  filter (fun y => negb (Js.mem y acc)) l.

(** Every item once, at the place of its first occurrence. *)
Fixpoint first_occurrences (l : list string) : list string :=
  match l with
  | [] => []
  | x :: rest => x :: without x (first_occurrences rest)
  end.

(** The normalisation in the words of the specification: split on commas,
    trim, upper-case, discard the empty tokens, deduplicate keeping the
    first occurrences. *)
Definition spec_normalize (raw : string) : list string :=
  first_occurrences
    (filter (fun t => negb (String.eqb t EmptyString))
       (map Js.toUpperCase (map Js.trim (Js.split "," raw)))).

(** The lines from the first one that is not blank. *)
Fixpoint drop_blank (lines : list string) : list string :=
  match lines with
  | [] => []
  | l :: rest => if is_blank l then drop_blank rest else lines
  end.

(** The rows of the reference file below its header row, the header being
    the first line that is not blank. *)
Definition rows_below_header (text : string) : list string :=
  skipn 1 (drop_blank (Js.split newline text)).

(** The lines that are not blank, trimmed and upper-cased. *)
Definition symbols_of_lines (lines : list string) : list string :=
  map (fun l => Js.toUpperCase (Js.trim l))
    (filter (fun l => negb (is_blank l)) lines).

(** The symbol list in the words of the specification: the rows below the
    header that are not blank, trimmed and upper-cased. *)
Definition spec_symbols (text : string) : list string :=
  symbols_of_lines (rows_below_header text).

(** What [trimEnd] does to the lines of a text: the blank lines at the end
    go, and the line before them loses its white space at the end. *)
Fixpoint trimEnd_lines (lines : list string) : list string :=
  match lines with
  | [] => []
  | l :: rest =>
      if forallb is_blank rest then [Js.trimEnd l]
      else l :: trimEnd_lines rest
  end.

(** Most recent first. *)
Definition newer_or_same (a b : NewsItem) : Prop :=
  (publishedAt b <= publishedAt a)%Z.

(** No occurrence of the character [c]. *)
Fixpoint no_char (c : ascii) (s : string) : bool :=
  match s with
  | EmptyString => true
  | String d r => negb (Ascii.eqb d c) && no_char c r
  end.

(** The symbols of a list of pieces: each trimmed and upper-cased, the
    empty ones dropped. *)
Definition tokens_of (pieces : list string) : list string :=
  filter Js.Boolean (map (fun s => Js.toUpperCase (Js.trim s)) pieces).

(** A symbol as the normalisation leaves it: not empty, fixed by trimming
    and upper-casing, without a comma. *)
Definition well_formed_symbol (t : string) : Prop :=
  Js.Boolean t = true /\ Js.toUpperCase (Js.trim t) = t /\
  no_char "," t = true.

(** One of the three exchange suffixes ends the string. *)
Definition has_exchange_suffix (upper : string) : bool :=
  Js.endsWith upper ".NS" || Js.endsWith upper ".BSE"
  || Js.endsWith upper ".BO".

(** The body received for an error payload; the results of a results
    payload are left out. *)
Definition error_wire (p : Payload) : HomePage.ApiResponse :=
  match p with
  | ErrorPayload m => HomePage.mkApi None (Some m)
  | ResultsPayload _ => HomePage.mkApi None None
  end.

(** A network that answers every request with HTTP 502 and a body that is
    not JSON. *)
Definition bad_gateway (req : RequestBody) : HomePage.FetchResult :=
  HomePage.FetchResolves 502
    (Throw (mkError (Some "Unexpected token < in JSON at position 0"))).

(** What [fetchSymbols] receives when the symbols route answers for the
    reference file [file]: the body always has its [symbols] array. *)
Definition symbols_served (file : FileRead) : completion (option (list string)) :=
  Normal (Some (symbols_list (GET file))).




(** The symbol a call is made for. *)
Definition call_symbol (c : Call) : string :=
  match c with
  | CallBuildStockInsight s => s
  | CallFetchBulkDeals s => s
  end.

(** The highlighted row is a row of the dropdown whenever the dropdown is
    shown. *)
Definition highlight_in_range (st : HomePage.State) : Prop :=
  HomePage.showSuggestions st = true ->
  (0 <= HomePage.selectedIndex st
   < Z.of_nat (List.length (HomePage.filteredSuggestions st)))%Z.

(** The network seen from the page when the route runs with the
    collaborators [P] and answers with [wire], the body received for what
    the route returned. *)
Definition served (P : Providers) (wire : Payload -> HomePage.ApiResponse)
           (req : RequestBody) : HomePage.FetchResult :=
  HomePage.FetchResolves (status (POST P req))
                         (Normal (Some (wire (payload (POST P req))))).

(** A page with the three suggestions of a small reference file loaded. *)
Definition sample_page : HomePage.State :=
  HomePage.mkState "reliance, " false None None []
                   ["TCS"; "TATAMOTORS"; "INFY"] EmptyString false 0.

(* ================================================================= *)
(** ** app/page.tsx, the page with the symbol picker *)

Module PickerPage.

(** The rest of a match of [/,+\s*$/] after its first comma: commas, then
    white space, then the end. *)
Fixpoint commas_then_spaces (r : string) : bool :=
  match r with
  | EmptyString => true
  | String d r' =>
      if Ascii.eqb d "," then commas_then_spaces r'
      else all_white_space r
  end.

(** [s.replace(/,+\s*$/, "")]: the match starts at the first comma that
    only commas and then white space follow, and runs to the end. *)
Fixpoint strip_trailing_commas (s : string) : string :=
  match s with
  | EmptyString => EmptyString
  | String c r =>
      if Ascii.eqb c "," && commas_then_spaces r then EmptyString
      else String c (strip_trailing_commas r)
  end.

(** [stripExchangeSuffix] has the text it has on the other page. *)
Definition stripExchangeSuffix : string -> string :=
  HomePage.stripExchangeSuffix.

(** [handlePickerChange(next)] on a page whose text box holds
    [symbolsInput]: the new text of the box and the new [pickerValue]. *)
Definition handlePickerChange (symbolsInput next : string) : string * string :=
  let value := Js.toUpperCase (Js.trim next) in
  if negb (Js.Boolean value) then (symbolsInput, value)
  else
    let base := stripExchangeSuffix value in
    if negb (Js.Boolean base) then (symbolsInput, value)
    else
      let already := Js.mem base (HomePage.activeSymbols symbolsInput) in
      if negb already then
        let existing := Js.trim symbolsInput in
        let updated :=
          if Js.Boolean existing
          then (strip_trailing_commas existing ++ ", " ++ base)%string
          else base in
        (updated, value)
      else (symbolsInput, value).

End PickerPage.

(* ================================================================= *)
(** ** Sample collaborators

    Providers and upstream answers used to run the handlers on concrete
    requests. *)

(** Both imports reject, with a value that has no message. *)
Definition silent_failure : Providers :=
  mkProviders (fun _ => Rejected (mkError None))
              (fun _ => Rejected (mkError None)).

(** [buildStockInsight] rejects with a message that names its host. *)
Definition refused : Providers :=
  mkProviders
    (fun _ => Rejected (mkError (Some "connect ECONNREFUSED 10.0.0.7:443")))
    (fun _ => Fulfilled []).

Definition LF : string := String newline EmptyString.
Definition CRLF : string := String "013"%char LF.

(** A reference file: a header, three symbols, a blank row, white space
    around a symbol, Windows line ends on two rows. *)
Definition sample_csv : string :=
  "Symbol" ++ LF ++ "reliance" ++ CRLF ++ "  Tcs " ++ CRLF ++ "   " ++ LF
  ++ "INFY" ++ LF.

(** A reference file that holds its header and blank rows. *)
Definition header_only_csv : string :=
  "Symbol" ++ CRLF ++ "  " ++ LF ++ LF.

(** The price provider fails for [X.NS] and answers for every other
    symbol; the news provider has four headlines, out of order. *)
Definition sample_upstream : FinanceApi.Upstream :=
  FinanceApi.mkUpstream
    (fun s => if String.eqb s "X.NS"
              then FinanceApi.ProviderError "Invalid API call for X.NS"
              else FinanceApi.PriceOk (FinanceApi.mkRange 1200 1500 900))
    (fun s => Some [mkNews "first" "wire" 10 None;
                    mkNews "fourth" "wire" 40 None;
                    mkNews "second" "wire" 20 None;
                    mkNews "third" "wire" 30 None])
    (fun _ => UNKNOWN).


(** The record the route returns for a symbol when the aggregator is the one
    of the specification. *)
Definition spec_record (U : FinanceApi.Upstream) (s : string) : StockInsight :=
  with_bulkDeals (FinanceApi.buildStockInsight U s)
                 (FinanceApi.fetchBulkDealsForSymbol s).

(** The [results] of a response; none for an error response. *)
Definition results_of (r : Response) : list StockInsight :=
  match payload r with
  | ResultsPayload results => results
  | ErrorPayload _ => []
  end.

(* ================================================================= *)
(** * Properties *)

(** ** Characters and strings *)

Lemma toUpperChar_white_space (c : ascii) :
  Js.is_white_space (Js.toUpperChar c) = Js.is_white_space c.
Proof.
  destruct c as [b0 b1 b2 b3 b4 b5 b6 b7].
  destruct b0, b1, b2, b3, b4, b5, b6, b7; reflexivity.
Qed.

Lemma toUpperChar_not_lower (c : ascii) :
  Js.is_lower (Js.toUpperChar c) = false.
Proof.
  destruct c as [b0 b1 b2 b3 b4 b5 b6 b7].
  destruct b0, b1, b2, b3, b4, b5, b6, b7; reflexivity.
Qed.

Lemma Boolean_true_iff (s : string) : Js.Boolean s = true <-> s <> EmptyString.
Proof.
  destruct s; simpl; split; intros H; congruence.
Qed.

Lemma Boolean_nonempty (s : string) : Js.nonempty s = Js.Boolean s.
Proof. destruct s; reflexivity. Qed.

Lemma toUpperCase_Boolean (s : string) :
  Js.Boolean (Js.toUpperCase s) = Js.Boolean s.
Proof. destruct s; reflexivity. Qed.

Lemma first_char_toUpperCase (s : string) :
  first_char (Js.toUpperCase s) = option_map Js.toUpperChar (first_char s).
Proof. destruct s; reflexivity. Qed.

Lemma last_char_toUpperCase (s : string) :
  last_char (Js.toUpperCase s) = option_map Js.toUpperChar (last_char s).
Proof.
  induction s as [|c r IH]; [reflexivity|].
  destruct r as [|d r']; [reflexivity|].
  exact IH.
Qed.

Lemma toUpperCase_upper_case (s : string) : upper_case (Js.toUpperCase s).
Proof.
  unfold upper_case.
  induction s as [|c r IH]; simpl; intros d Hd; [contradiction|].
  destruct Hd as [<-|Hd]; [apply toUpperChar_not_lower | now apply IH].
Qed.

Lemma toUpperCase_trimmed (s : string) : trimmed s -> trimmed (Js.toUpperCase s).
Proof.
  intros [Hf Hl]; split; intros c.
  - rewrite first_char_toUpperCase.
    destruct (first_char s) as [d|]; simpl; [|discriminate].
    intros [= <-]. rewrite toUpperChar_white_space. now apply Hf.
  - rewrite last_char_toUpperCase.
    destruct (last_char s) as [d|]; simpl; [|discriminate].
    intros [= <-]. rewrite toUpperChar_white_space. now apply Hl.
Qed.

Lemma trimStart_first (s : string) (c : ascii) :
  first_char (Js.trimStart s) = Some c -> Js.is_white_space c = false.
Proof.
  induction s as [|d r IH]; simpl; [discriminate|].
  destruct (Js.is_white_space d) eqn:E; [exact IH|].
  simpl. now intros [= <-].
Qed.

(** [trimEnd] one character at a time. *)
Lemma trimEnd_cons (c : ascii) (r : string) :
  Js.trimEnd (String c r) =
  if Js.Boolean (Js.trimEnd r) then String c (Js.trimEnd r)
  else if Js.is_white_space c then EmptyString else String c EmptyString.
Proof. simpl. destruct (Js.trimEnd r); reflexivity. Qed.

Lemma trimEnd_first (s : string) (c : ascii) :
  first_char (Js.trimEnd s) = Some c -> first_char s = Some c.
Proof.
  destruct s as [|d r]; [discriminate|].
  rewrite trimEnd_cons.
  destruct (Js.Boolean (Js.trimEnd r)); [now simpl|].
  destruct (Js.is_white_space d); [discriminate | now simpl].
Qed.

Lemma trimEnd_last (s : string) (c : ascii) :
  last_char (Js.trimEnd s) = Some c -> Js.is_white_space c = false.
Proof.
  induction s as [|d r IH]; [discriminate|].
  rewrite trimEnd_cons.
  destruct (Js.trimEnd r) as [|e r'] eqn:E; simpl.
  - destruct (Js.is_white_space d) eqn:W; simpl; [discriminate|].
    now intros [= <-].
  - exact IH.
Qed.

Lemma trim_trimmed (s : string) : trimmed (Js.trim s).
Proof.
  split; intros c H.
  - apply trimEnd_first in H. now apply trimStart_first in H.
  - now apply trimEnd_last in H.
Qed.

(** ** [Set]: insertion order is first-occurrence order *)

Lemma mem_true_iff (x : string) (s : list string) :
  Js.mem x s = true <-> In x s.
Proof.
  unfold Js.mem. rewrite existsb_exists. split.
  - intros [y [Hy E]]. apply String.eqb_eq in E. now subst.
  - intros H. exists x. split; [exact H | apply String.eqb_refl].
Qed.

Lemma without_In (x y : string) (l : list string) :
  In y (without x l) <-> In y l /\ x <> y.
Proof.
  unfold without. rewrite filter_In, negb_true_iff, String.eqb_neq. tauto.
Qed.

Lemma without_absent (x : string) (l : list string) :
  ~ In x l -> without x l = l.
Proof.
  induction l as [|y l IH]; simpl; intros H; [reflexivity|].
  destruct (String.eqb_spec x y) as [->|N]; simpl.
  - exfalso. apply H. now left.
  - f_equal. apply IH. intros K. apply H. now right.
Qed.

Lemma fresh_without (acc : list string) (x : string) (l : list string) :
  Js.mem x acc = true -> fresh acc (without x l) = fresh acc l.
Proof.
  intros M. unfold fresh. induction l as [|y l IH]; simpl; [reflexivity|].
  destruct (String.eqb_spec x y) as [->|N]; simpl.
  - rewrite M. simpl. exact IH.
  - destruct (Js.mem y acc); simpl; [exact IH | now f_equal].
Qed.

Lemma mem_snoc (y x : string) (acc : list string) :
  Js.mem y (acc ++ [x]) = Js.mem y acc || String.eqb x y.
Proof.
  unfold Js.mem. rewrite existsb_app. simpl.
  now rewrite orb_false_r, (String.eqb_sym y x).
Qed.

Lemma fresh_snoc (acc : list string) (x : string) (l : list string) :
  fresh (acc ++ [x]) l = fresh acc (without x l).
Proof.
  unfold fresh. induction l as [|y l IH]; simpl; [reflexivity|].
  rewrite mem_snoc.
  destruct (String.eqb x y); simpl.
  - rewrite orb_true_r. simpl. exact IH.
  - rewrite orb_false_r. destruct (Js.mem y acc); simpl; [exact IH | now f_equal].
Qed.

Lemma fold_Set_add (l acc : list string) :
  fold_left Js.Set_add l acc = acc ++ fresh acc (first_occurrences l).
Proof.
  revert acc. induction l as [|x l IH]; intros acc; simpl.
  - now rewrite app_nil_r.
  - rewrite IH. unfold Js.Set_add.
    destruct (Js.mem x acc) eqn:M; simpl.
    + now rewrite fresh_without.
    + rewrite fresh_snoc, <- app_assoc. reflexivity.
Qed.

Lemma new_Set_first_occurrences (l : list string) :
  Js.Array_from (Js.new_Set l) = first_occurrences l.
Proof.
  unfold Js.Array_from, Js.new_Set. rewrite fold_Set_add. unfold fresh. simpl.
  induction (first_occurrences l) as [|y r IH]; simpl; [reflexivity|].
  now f_equal.
Qed.

Lemma first_occurrences_In (x : string) (l : list string) :
  In x (first_occurrences l) <-> In x l.
Proof.
  induction l as [|y l IH]; simpl; [tauto|].
  rewrite without_In, IH.
  destruct (String.eqb_spec y x) as [->|N]; [tauto|].
  split; [tauto|]. intros [E|H]; [congruence | tauto].
Qed.

Lemma first_occurrences_NoDup (l : list string) : NoDup (first_occurrences l).
Proof.
  induction l as [|y l IH]; simpl; constructor.
  - rewrite without_In. intros [_ N]. now apply N.
  - unfold without. now apply NoDup_filter.
Qed.

Lemma first_occurrences_nil (l : list string) :
  first_occurrences l = [] <-> l = [].
Proof. destruct l; simpl; split; congruence. Qed.

(** The first-occurrence list keeps the first item of the list in front and
    is unchanged on a list without repetition. *)
Lemma first_occurrences_NoDup_id (l : list string) :
  NoDup l -> first_occurrences l = l.
Proof.
  induction 1 as [|x l Hx Hl IH]; simpl; [reflexivity|].
  rewrite IH. f_equal. now apply without_absent.
Qed.

(** ** The symbol tokens *)

Lemma symbol_tokens_spec (raw : string) :
  symbol_tokens raw =
  filter (fun t => negb (String.eqb t EmptyString))
    (map Js.toUpperCase (map Js.trim (Js.split "," raw))).
Proof.
  unfold symbol_tokens. rewrite map_map.
  apply filter_ext. intros t. now destruct t.
Qed.

Lemma symbol_tokens_In (raw t : string) :
  In t (symbol_tokens raw) <->
  t <> EmptyString /\
  exists piece, In piece (Js.split "," raw) /\ t = Js.toUpperCase (Js.trim piece).
Proof.
  unfold symbol_tokens. rewrite filter_In, in_map_iff, Boolean_true_iff.
  split.
  - intros [[p [E Hp]] N]. split; [exact N|]. now exists p.
  - intros [N [p [Hp E]]]. split; [|exact N]. now exists p.
Qed.

Lemma normalize_In (raw t : string) :
  In t (normalize raw) <-> In t (symbol_tokens raw).
Proof.
  unfold normalize, unique_symbols.
  now rewrite new_Set_first_occurrences, first_occurrences_In.
Qed.

Lemma normalize_nil (raw : string) :
  normalize raw = [] <-> symbol_tokens raw = [].
Proof.
  unfold normalize, unique_symbols.
  now rewrite new_Set_first_occurrences, first_occurrences_nil.
Qed.

(** C3. For every raw input string the normalisation of the POST handler is
    the one the specification words: split on commas, trim, upper-case,
    discard the empty tokens, keep the first occurrence of each.  Its result
    has no repetition, and each symbol in it is non-empty, trimmed and
    upper-case and comes from a piece of the input; ["tcs, TCS, Infy "]
    gives [["TCS"; "INFY"]]. *)
Theorem normalize_correct :
  forall raw : string,
    normalize raw = spec_normalize raw /\
    NoDup (normalize raw) /\
    (forall t, In t (normalize raw) ->
       t <> EmptyString /\ trimmed t /\ upper_case t /\
       exists piece, In piece (Js.split "," raw) /\
                     t = Js.toUpperCase (Js.trim piece)) /\
    normalize "tcs, TCS, Infy " = ["TCS"; "INFY"].
Proof.
  intros raw. repeat split.
  - unfold normalize, unique_symbols, spec_normalize.
    now rewrite new_Set_first_occurrences, symbol_tokens_spec.
  - unfold normalize, unique_symbols.
    rewrite new_Set_first_occurrences. apply first_occurrences_NoDup.
  - apply normalize_In, symbol_tokens_In in H. tauto.
  - apply normalize_In, symbol_tokens_In in H.
    destruct H as [_ [p [_ ->]]]. apply toUpperCase_trimmed, trim_trimmed.
  - apply normalize_In, symbol_tokens_In in H.
    destruct H as [_ [p [_ ->]]]. apply toUpperCase_trimmed, trim_trimmed.
  - apply normalize_In, symbol_tokens_In in H.
    destruct H as [_ [p [_ ->]]]. apply toUpperCase_upper_case.
  - apply normalize_In, symbol_tokens_In in H. tauto.
Qed.

(** The symbol [TCS] of the normalised example input. *)
Lemma normalize_correct_witness :
  trimmed "TCS" /\ upper_case "TCS" /\ NoDup (normalize "tcs, TCS, Infy ").
Proof.
  destruct (normalize_correct "tcs, TCS, Infy ") as [_ [N [H _]]].
  destruct (H "TCS" (or_introl eq_refl)) as [_ [T [U _]]].
  exact (conj T (conj U N)).
Defined.

(** ** The POST handler *)

Lemma POST_try_no_symbols (P : Providers) (req : RequestBody) (raw : string) :
  request_raw req = Normal raw ->
  symbol_tokens raw = [] ->
  POST_try P req = (Normal no_symbols_response, []).
Proof.
  intros R T. unfold POST_try. now rewrite R, T.
Qed.

Lemma POST_try_symbols (P : Providers) (req : RequestBody) (raw : string) :
  request_raw req = Normal raw ->
  symbol_tokens raw <> [] ->
  POST_try P req =
  (insights <- await (Promise_all (map (insight_task P) (normalize raw))) ;;
   Normal {| status := 200; payload := ResultsPayload insights |},
   flat_map (task_calls P) (normalize raw)).
Proof.
  intros R T. unfold POST_try. rewrite R.
  destruct (symbol_tokens raw) eqn:E; [congruence|].
  unfold normalize. now rewrite E.
Qed.

Lemma request_raw_string (s : string) :
  request_raw (with_symbols (JStr s)) = Normal s.
Proof. reflexivity. Qed.

Lemma white_space_not_comma (c : ascii) :
  Js.is_white_space c = true -> Ascii.eqb c "," = false.
Proof.
  intros W. destruct (Ascii.eqb_spec c ","%char) as [->|]; [discriminate | reflexivity].
Qed.

Lemma all_white_space_trimStart (s : string) :
  all_white_space s = true -> Js.trimStart s = EmptyString.
Proof.
  induction s as [|c r IH]; simpl; [reflexivity|].
  intros H. apply andb_true_iff in H as [W A]. rewrite W. now apply IH.
Qed.

Lemma all_white_space_split (s : string) :
  all_white_space s = true -> Js.split "," s = [s].
Proof.
  induction s as [|c r IH]; simpl; [reflexivity|].
  intros H. apply andb_true_iff in H as [W A].
  rewrite (white_space_not_comma _ W), (IH A). reflexivity.
Qed.

Lemma blank_pieces_no_tokens (raw : string) :
  Forall (fun piece => Js.trim piece = EmptyString) (Js.split "," raw) ->
  symbol_tokens raw = [].
Proof.
  unfold symbol_tokens.
  induction (Js.split "," raw) as [|p l IH]; intros H; [reflexivity|].
  inversion H as [|? ? Hp Hl]; subst. simpl. rewrite Hp. simpl. now apply IH.
Qed.

Lemma white_space_no_tokens (raw : string) :
  all_white_space raw = true -> symbol_tokens raw = [].
Proof.
  intros H. apply blank_pieces_no_tokens.
  rewrite (all_white_space_split _ H). constructor; [|constructor].
  unfold Js.trim. now rewrite (all_white_space_trimStart _ H).
Qed.

(** C5. When the raw symbols input of a request is empty or white space
    only, or all its comma-separated pieces are empty once trimmed, the
    handler answers HTTP 400 with the error ["No symbols provided."] and
    calls neither [buildStockInsight] nor [fetchBulkDealsForSymbol]. *)
Theorem POST_no_symbols :
  forall (P : Providers) (req : RequestBody) (raw : string),
    request_raw req = Normal raw ->
    all_white_space raw = true \/
    Forall (fun piece => Js.trim piece = EmptyString) (Js.split "," raw) ->
    POST P req = {| status := 400;
                    payload := ErrorPayload "No symbols provided." |} /\
    POST_calls P req = [].
Proof.
  intros P req raw R H.
  assert (T : symbol_tokens raw = []).
  { destruct H as [H|H];
      [now apply white_space_no_tokens | now apply blank_pieces_no_tokens]. }
  unfold POST, POST_calls.
  rewrite (POST_try_no_symbols P req raw R T). now split.
Qed.

(** The handler on an empty string, on blanks, and on blanks between
    commas. *)
Lemma POST_no_symbols_witness :
  let P := silent_failure in
  (POST P (with_symbols (JStr "")) = no_symbols_response /\
   POST_calls P (with_symbols (JStr "")) = []) /\
  (POST P (with_symbols (JStr "   ")) = no_symbols_response /\
   POST_calls P (with_symbols (JStr "   ")) = []) /\
  (POST P (with_symbols (JStr " , ,,  ")) = no_symbols_response /\
   POST_calls P (with_symbols (JStr " , ,,  ")) = []).
Proof.
  intros P. repeat apply conj.
  - apply (POST_no_symbols P (with_symbols (JStr "")) "");
      [reflexivity | left; reflexivity].
  - apply (POST_no_symbols P (with_symbols (JStr "")) "");
      [reflexivity | left; reflexivity].
  - apply (POST_no_symbols P (with_symbols (JStr "   ")) "   ");
      [reflexivity | left; reflexivity].
  - apply (POST_no_symbols P (with_symbols (JStr "   ")) "   ");
      [reflexivity | left; reflexivity].
  - apply (POST_no_symbols P (with_symbols (JStr " , ,,  ")) " , ,,  ");
      [reflexivity | right; repeat constructor].
  - apply (POST_no_symbols P (with_symbols (JStr " , ,,  ")) " , ,,  ");
      [reflexivity | right; repeat constructor].
Defined.

Lemma raw_symbols_array (items : list json) (j : string) :
  Array_join items = Normal j ->
  raw_symbols (Some (JArr items)) = Normal j.
Proof.
  intros J. unfold raw_symbols. rewrite J. simpl. now destruct j.
Qed.

Lemma POST_try_same_raw (P : Providers) (req1 req2 : RequestBody) :
  request_raw req1 = request_raw req2 -> POST_try P req1 = POST_try P req2.
Proof. intros E. unfold POST_try. now rewrite E. Qed.

(** C9. A request whose [symbols] member is an array gets the response,
    and causes the calls, of the request whose [symbols] member is the
    string that joins the array with commas; an array item that holds a
    comma therefore counts as several symbols. *)
Theorem POST_array_as_joined_string :
  forall (P : Providers) (members1 members2 : list (string * json))
         (xs : list json) (joined : string),
    get_member "symbols" members1 = Some (JArr xs) ->
    Array_join xs = Normal joined ->
    get_member "symbols" members2 = Some (JStr joined) ->
    POST P (ParsedJson (JObj members1)) = POST P (ParsedJson (JObj members2)) /\
    POST_calls P (ParsedJson (JObj members1)) =
    POST_calls P (ParsedJson (JObj members2)) /\
    request_raw (with_symbols (JArr [JStr "AAPL,MSFT"])) = Normal "AAPL,MSFT" /\
    normalize "AAPL,MSFT" = ["AAPL"; "MSFT"].
Proof.
  intros P m1 m2 xs j G1 J G2.
  assert (E : POST_try P (ParsedJson (JObj m1)) = POST_try P (ParsedJson (JObj m2))).
  { apply POST_try_same_raw. unfold request_raw. simpl.
    rewrite G1, G2. simpl. now apply raw_symbols_array. }
  unfold POST, POST_calls. rewrite E. repeat split.
Qed.

(** The array [["tcs", "infy,tcs"]] against the string ["tcs,infy,tcs"]. *)
Lemma POST_array_as_joined_string_witness :
  let P := refused in
  POST P (with_symbols (JArr [JStr "tcs"; JStr "infy,tcs"])) =
  POST P (with_symbols (JStr "tcs,infy,tcs")) /\
  POST_calls P (with_symbols (JArr [JStr "tcs"; JStr "infy,tcs"])) =
  POST_calls P (with_symbols (JStr "tcs,infy,tcs")).
Proof.
  intros P.
  destruct (POST_array_as_joined_string P
              [("symbols", JArr [JStr "tcs"; JStr "infy,tcs"])]
              [("symbols", JStr "tcs,infy,tcs")]
              [JStr "tcs"; JStr "infy,tcs"] "tcs,infy,tcs"
              eq_refl eq_refl eq_refl) as [H1 [H2 _]].
  split; [exact H1 | exact H2].
Defined.

(** ** Exceptions at the handler boundary *)


Lemma Promise_all_fulfils {A : Type} (ps : list (settled A)) (vs : list A) :
  Promise_all ps = Fulfilled vs <-> ps = map Fulfilled vs.
Proof.
  revert vs. induction ps as [|p ps IH]; intros vs; simpl.
  - split; [intros [= <-]; reflexivity|]. destruct vs; [reflexivity | discriminate].
  - destruct p as [a|e].
    + destruct (Promise_all ps) as [ws|e'] eqn:E.
      * split.
        -- intros [= <-]. simpl. f_equal. now apply IH.
        -- destruct vs as [|v vs]; [discriminate|]. simpl. intros [= -> H].
           apply IH in H. now injection H as ->.
      * split; [discriminate|].
        destruct vs as [|v vs]; [discriminate|]. simpl. intros [= -> H].
        apply IH in H. discriminate.
    + split; [discriminate|]. destruct vs; discriminate.
Qed.


Lemma POST_try_raw_throws (P : Providers) (req : RequestBody) (e : JsError) :
  request_raw req = Throw e -> POST_try P req = (Throw e, []).
Proof. intros H. unfold POST_try. now rewrite H. Qed.

















(** ** One record per symbol *)

Lemma POST_ok_inv (P : Providers) (req : RequestBody)
      (results : list StockInsight) :
  POST P req = {| status := 200; payload := ResultsPayload results |} ->
  exists raw,
    request_raw req = Normal raw /\
    symbol_tokens raw <> [] /\
    map (insight_task P) (normalize raw) = map Fulfilled results.
Proof.
  unfold POST. destruct (request_raw req) as [raw|e] eqn:R.
  - destruct (symbol_tokens raw) as [|t ts] eqn:T.
    + rewrite (POST_try_no_symbols P req raw R T). discriminate.
    + assert (T' : symbol_tokens raw <> []) by congruence.
      rewrite (POST_try_symbols P req raw R T'). simpl.
      destruct (Promise_all (map (insight_task P) (normalize raw)))
        as [vs|e] eqn:E; simpl; [|discriminate].
      intros [= <-]. exists raw. repeat split; [congruence|].
      now apply Promise_all_fulfils.
  - rewrite (POST_try_raw_throws P req e R). discriminate.
Qed.

Lemma insight_task_fulfilled (P : Providers) (s : string) (r : StockInsight) :
  insight_task P s = Fulfilled r ->
  exists base deals,
    buildStockInsight P s = Fulfilled base /\
    fetchBulkDealsForSymbol P s = Fulfilled deals /\
    r = with_bulkDeals base deals.
Proof.
  unfold insight_task.
  destruct (buildStockInsight P s) as [base|e]; [|discriminate].
  destruct (fetchBulkDealsForSymbol P s) as [deals|e]; [|discriminate].
  intros [= <-]. now exists base, deals.
Qed.

Lemma map_eq_Forall2 {A B C : Type} (f : A -> C) (g : B -> C)
      (l : list A) (l' : list B) :
  map f l = map g l' -> Forall2 (fun a b => f a = g b) l l'.
Proof.
  revert l'. induction l as [|a l IH]; intros [|b l']; simpl;
    try discriminate; intros H; constructor.
  - now injection H.
  - apply IH. now injection H.
Qed.

Lemma POST_spec_ok (U : FinanceApi.Upstream) (req : RequestBody) (raw : string) :
  request_raw req = Normal raw ->
  symbol_tokens raw <> [] ->
  POST (FinanceApi.providers U) req =
  {| status := 200;
     payload := ResultsPayload (map (spec_record U) (normalize raw)) |}.
Proof.
  intros R T. unfold POST. rewrite (POST_try_symbols _ req raw R T). simpl.
  assert (E : Promise_all (map (insight_task (FinanceApi.providers U)) (normalize raw))
              = Fulfilled (map (spec_record U) (normalize raw))).
  { apply Promise_all_fulfils. rewrite map_map. reflexivity. }
  now rewrite E.
Qed.

Lemma spec_record_symbol (U : FinanceApi.Upstream) (s : string) :
  symbol (spec_record U s) = s.
Proof.
  unfold spec_record, FinanceApi.buildStockInsight.
  now destruct (FinanceApi.fetchPriceAndRange U s).
Qed.

(** C6. A response with HTTP 200 has one record per symbol of the
    normalised, deduplicated input, in that order: the record the aggregator
    built for that symbol, with the bulk deals fetched for it.  With the
    aggregator of the specification every request with a symbol gets such a
    response and each record carries its symbol as entered, suffix included;
    ["RELIANCE.NS, TCS.NS"] gives two records, in that order. *)
Theorem POST_results_per_symbol :
  (forall (P : Providers) (req : RequestBody) (results : list StockInsight),
     POST P req = {| status := 200; payload := ResultsPayload results |} ->
     exists raw,
       request_raw req = Normal raw /\
       List.length results = List.length (normalize raw) /\
       Forall2 (fun s r =>
                  exists base deals,
                    buildStockInsight P s = Fulfilled base /\
                    fetchBulkDealsForSymbol P s = Fulfilled deals /\
                    r = with_bulkDeals base deals)
               (normalize raw) results) /\
  (forall (U : FinanceApi.Upstream) (req : RequestBody) (raw : string),
     request_raw req = Normal raw ->
     symbol_tokens raw <> [] ->
     exists results,
       POST (FinanceApi.providers U) req =
       {| status := 200; payload := ResultsPayload results |} /\
       map symbol results = normalize raw) /\
  (forall U : FinanceApi.Upstream,
     let response :=
       POST (FinanceApi.providers U) (with_symbols (JStr "RELIANCE.NS, TCS.NS")) in
     status response = 200%Z /\
     map symbol (results_of response) = ["RELIANCE.NS"; "TCS.NS"]).
Proof.
  split; [|split].
  - intros P req results H.
    destruct (POST_ok_inv P req results H) as [raw [R [_ M]]].
    exists raw. split; [exact R|]. split.
    + apply (f_equal (@List.length _)) in M. now rewrite !length_map in M.
    + apply map_eq_Forall2 in M.
      eapply Forall2_impl; [|exact M].
      intros s r. apply insight_task_fulfilled.
  - intros U req raw R T. exists (map (spec_record U) (normalize raw)).
    split; [apply POST_spec_ok; assumption|].
    rewrite map_map. erewrite map_ext; [apply map_id|].
    intros s. apply spec_record_symbol.
  - intros U response. subst response.
    rewrite (POST_spec_ok U (with_symbols (JStr "RELIANCE.NS, TCS.NS"))
               "RELIANCE.NS, TCS.NS" eq_refl); [|discriminate].
    unfold results_of. cbn [payload status]. split; [reflexivity|].
    change (normalize "RELIANCE.NS, TCS.NS") with ["RELIANCE.NS"; "TCS.NS"].
    cbn [map]. now rewrite !spec_record_symbol.
Qed.

(** The sample upstream on ["reliance.ns, TCS.NS, reliance.ns"]. *)
Lemma POST_results_per_symbol_witness :
  map symbol
    (results_of (POST (FinanceApi.providers sample_upstream)
                      (with_symbols (JStr "reliance.ns, TCS.NS, reliance.ns")))) =
  ["RELIANCE.NS"; "TCS.NS"].
Proof.
  destruct (proj1 (proj2 POST_results_per_symbol) sample_upstream
              (with_symbols (JStr "reliance.ns, TCS.NS, reliance.ns"))
              "reliance.ns, TCS.NS, reliance.ns" eq_refl)
    as [results [E M]]; [discriminate|].
  rewrite E. exact M.
Defined.

(** ** A failed price fetch stays with its symbol *)

(** C1. With the aggregator of the specification, a batch that holds a
    symbol [X] whose price fetch fails and a symbol [Y] whose price fetch
    succeeds is answered with HTTP 200 and one record per symbol.  The record
    of [X] has the failure message as its [error], no number at all, and the
    news and bulk deals of its own fetches; the record of [Y] has no error,
    its three prices, the two percentages computed from them, and its news
    and bulk deals. *)
Theorem POST_partial_failure :
  forall (U : FinanceApi.Upstream) (req : RequestBody) (raw X Y msg : string)
         (p : FinanceApi.PriceAndRange),
    request_raw req = Normal raw ->
    In X (normalize raw) ->
    In Y (normalize raw) ->
    FinanceApi.fetchPriceAndRange U X = FinanceApi.ProviderError msg ->
    FinanceApi.fetchPriceAndRange U Y = FinanceApi.PriceOk p ->
    exists results rx ry,
      POST (FinanceApi.providers U) req =
      {| status := 200; payload := ResultsPayload results |} /\
      map symbol results = normalize raw /\
      (In rx results /\ symbol rx = X /\ error rx = Some msg /\
       currentPrice rx = None /\ high52 rx = None /\ low52 rx = None /\
       pctHigh rx = None /\ pctLow rx = None /\
       latestNews rx = FinanceApi.fetchNewsForSymbol U X /\
       bulkDeals rx = FinanceApi.fetchBulkDealsForSymbol X) /\
      (In ry results /\ symbol ry = Y /\ error ry = None /\
       currentPrice ry = Some (FinanceApi.range_currentPrice p) /\
       high52 ry = Some (FinanceApi.range_high52 p) /\
       low52 ry = Some (FinanceApi.range_low52 p) /\
       pctHigh ry = Some (pctFromHigh (FinanceApi.range_currentPrice p)
                                      (FinanceApi.range_high52 p)) /\
       pctLow ry = Some (pctFromLow (FinanceApi.range_currentPrice p)
                                    (FinanceApi.range_low52 p)) /\
       latestNews ry = FinanceApi.fetchNewsForSymbol U Y /\
       bulkDeals ry = FinanceApi.fetchBulkDealsForSymbol Y).
Proof.
  intros U req raw X Y msg p R HX HY PX PY.
  assert (T : symbol_tokens raw <> []).
  { intros T. apply normalize_nil in T. rewrite T in HX. contradiction. }
  exists (map (spec_record U) (normalize raw)), (spec_record U X), (spec_record U Y).
  split; [now apply POST_spec_ok|]. split.
  { rewrite map_map. erewrite map_ext; [apply map_id|].
    intros s. apply spec_record_symbol. }
  split.
  - split; [now apply in_map|].
    unfold spec_record, FinanceApi.buildStockInsight. rewrite PX.
    cbn. repeat split.
  - split; [now apply in_map|].
    unfold spec_record, FinanceApi.buildStockInsight. rewrite PY.
    cbn. repeat split.
Qed.

(** The sample upstream on ["x.ns, tcs.ns"]: the record of [X.NS] carries
    the provider's message and three headlines, and no price. *)
Lemma POST_partial_failure_witness :
  exists results rx ry,
    POST (FinanceApi.providers sample_upstream) (with_symbols (JStr "x.ns, tcs.ns")) =
    {| status := 200; payload := ResultsPayload results |} /\
    map symbol results = ["X.NS"; "TCS.NS"] /\
    In rx results /\ error rx = Some "Invalid API call for X.NS" /\
    currentPrice rx = None /\
    In ry results /\ error ry = None /\ currentPrice ry = Some 1200%float.
Proof.
  destruct (POST_partial_failure sample_upstream
              (with_symbols (JStr "x.ns, tcs.ns")) "x.ns, tcs.ns"
              "X.NS" "TCS.NS" "Invalid API call for X.NS"
              (FinanceApi.mkRange 1200 1500 900)
              eq_refl (or_introl eq_refl) (or_intror (or_introl eq_refl))
              eq_refl eq_refl)
    as [results [rx [ry [E [M [HX HY]]]]]].
  exists results, rx, ry.
  destruct HX as [IX [_ [EX [CX _]]]]. destruct HY as [IY [_ [EY [CY _]]]].
  repeat (split; [assumption|]). exact CY.
Defined.

(** ** The headlines *)

Lemma insert_desc_perm (n : NewsItem) (l : list NewsItem) :
  Permutation (FinanceApi.insert_desc n l) (n :: l).
Proof.
  induction l as [|m l IH]; simpl; [reflexivity|].
  destruct (publishedAt m <=? publishedAt n)%Z; [reflexivity|].
  rewrite IH. apply perm_swap.
Qed.

Lemma sort_desc_perm (l : list NewsItem) :
  Permutation (FinanceApi.sort_desc l) l.
Proof.
  induction l as [|n l IH]; simpl; [reflexivity|].
  rewrite insert_desc_perm. now constructor.
Qed.

Lemma insert_desc_sorted (n : NewsItem) (l : list NewsItem) :
  StronglySorted newer_or_same l ->
  StronglySorted newer_or_same (FinanceApi.insert_desc n l).
Proof.
  induction l as [|m l IH]; simpl; intros S.
  - repeat constructor.
  - inversion S as [|? ? Sl Fm]; subst.
    destruct (publishedAt m <=? publishedAt n)%Z eqn:E.
    + apply Z.leb_le in E. constructor; [exact S|].
      constructor; [exact E|].
      eapply Forall_impl; [|exact Fm]. unfold newer_or_same. intros; lia.
    + apply Z.leb_gt in E. constructor; [now apply IH|].
      eapply Permutation_Forall; [symmetry; apply insert_desc_perm|].
      constructor; [unfold newer_or_same; lia | exact Fm].
Qed.

Lemma sort_desc_sorted (l : list NewsItem) :
  StronglySorted newer_or_same (FinanceApi.sort_desc l).
Proof.
  induction l as [|n l IH]; simpl; [constructor | now apply insert_desc_sorted].
Qed.

Lemma firstn_In {A : Type} (k : nat) (l : list A) (x : A) :
  In x (firstn k l) -> In x l.
Proof.
  revert k. induction l as [|a l IH]; intros [|k]; simpl; try tauto.
  intros [E|H]; [now left | right; now apply (IH k)].
Qed.

Lemma StronglySorted_firstn {A : Type} (R : A -> A -> Prop) (k : nat)
      (l : list A) :
  StronglySorted R l -> StronglySorted R (firstn k l).
Proof.
  revert k. induction l as [|a l IH]; intros [|k] S; simpl; try constructor.
  - apply IH. now inversion S.
  - inversion S as [|? ? _ F]; subst.
    rewrite Forall_forall in *. intros x Hx. apply F.
    now apply (firstn_In k).
Qed.

Lemma StronglySorted_across {A : Type} (R : A -> A -> Prop) (l1 l2 : list A) :
  StronglySorted R (l1 ++ l2) ->
  forall a b, In a l1 -> In b l2 -> R a b.
Proof.
  induction l1 as [|x l1 IH]; simpl; intros S a b Ha Hb; [contradiction|].
  inversion S as [|? ? S' F]; subst.
  destruct Ha as [<-|Ha].
  - rewrite Forall_forall in F. apply F, in_or_app. now right.
  - now apply (IH S' a b).
Qed.

Lemma fetchNews_length (U : FinanceApi.Upstream) (s : string) :
  (List.length (FinanceApi.fetchNewsForSymbol U s) <= 3)%nat.
Proof.
  unfold FinanceApi.fetchNewsForSymbol.
  destruct (FinanceApi.newsFeed U s); [apply firstn_le_length | simpl; lia].
Qed.

Lemma fetchNews_sorted (U : FinanceApi.Upstream) (s : string) :
  StronglySorted newer_or_same (FinanceApi.fetchNewsForSymbol U s).
Proof.
  unfold FinanceApi.fetchNewsForSymbol.
  destruct (FinanceApi.newsFeed U s); [|constructor].
  apply StronglySorted_firstn, sort_desc_sorted.
Qed.

Lemma fetchNews_most_recent (U : FinanceApi.Upstream) (s : string)
      (items : list NewsItem) :
  FinanceApi.newsFeed U s = Some items ->
  exists older,
    Permutation (FinanceApi.fetchNewsForSymbol U s ++ older) items /\
    (forall a b, In a (FinanceApi.fetchNewsForSymbol U s) -> In b older ->
                 newer_or_same a b) /\
    List.length (FinanceApi.fetchNewsForSymbol U s) = Nat.min 3 (List.length items).
Proof.
  intros F. unfold FinanceApi.fetchNewsForSymbol. rewrite F.
  exists (skipn 3 (FinanceApi.sort_desc items)). split; [|split].
  - rewrite firstn_skipn. apply sort_desc_perm.
  - apply StronglySorted_across. rewrite firstn_skipn. apply sort_desc_sorted.
  - rewrite length_firstn. f_equal. apply Permutation_length, sort_desc_perm.
Qed.

Lemma POST_spec_results (U : FinanceApi.Upstream) (req : RequestBody)
      (results : list StockInsight) (r : StockInsight) :
  POST (FinanceApi.providers U) req =
  {| status := 200; payload := ResultsPayload results |} ->
  In r results ->
  exists s, r = spec_record U s.
Proof.
  intros H I.
  destruct (POST_ok_inv _ req results H) as [raw [R [T _]]].
  rewrite (POST_spec_ok U req raw R T) in H. injection H as <-.
  apply in_map_iff in I as [s [<- _]]. now exists s.
Qed.

(** C8. With the news fetch of the specification, every record of a
    response with HTTP 200 has at most three headlines, ordered from the
    most recent to the oldest: they are the headlines fetched for the
    record's symbol, which are, when the news provider answers, its three
    most recent entries (all of them when it has fewer). *)
Theorem POST_latestNews :
  forall (U : FinanceApi.Upstream) (req : RequestBody)
         (results : list StockInsight) (r : StockInsight),
    POST (FinanceApi.providers U) req =
    {| status := 200; payload := ResultsPayload results |} ->
    In r results ->
    (List.length (latestNews r) <= 3)%nat /\
    StronglySorted newer_or_same (latestNews r) /\
    latestNews r = FinanceApi.fetchNewsForSymbol U (symbol r) /\
    (forall items, FinanceApi.newsFeed U (symbol r) = Some items ->
       exists older,
         Permutation (latestNews r ++ older) items /\
         (forall a b, In a (latestNews r) -> In b older -> newer_or_same a b) /\
         List.length (latestNews r) = Nat.min 3 (List.length items)).
Proof.
  intros U req results r H I.
  destruct (POST_spec_results U req results r H I) as [s ->].
  rewrite spec_record_symbol.
  assert (E : latestNews (spec_record U s) = FinanceApi.fetchNewsForSymbol U s).
  { unfold spec_record, FinanceApi.buildStockInsight.
    now destruct (FinanceApi.fetchPriceAndRange U s). }
  rewrite E. split; [apply fetchNews_length|].
  split; [apply fetchNews_sorted|]. split; [reflexivity|].
  apply fetchNews_most_recent.
Qed.

(** The sample upstream has four headlines, published at 10, 40, 20 and
    30: the record keeps 40, 30 and 20. *)
Lemma POST_latestNews_witness :
  (List.length (latestNews (spec_record sample_upstream "TCS")) <= 3)%nat /\
  map publishedAt (latestNews (spec_record sample_upstream "TCS")) =
  [40; 30; 20]%Z.
Proof.
  split; [|reflexivity].
  exact (proj1 (POST_latestNews sample_upstream (with_symbols (JStr "tcs"))
                  [spec_record sample_upstream "TCS"]
                  (spec_record sample_upstream "TCS")
                  eq_refl (or_introl eq_refl))).
Defined.

(** ** The percentages *)

(** C4. On finite inputs with a denominator that is not zero, [pctFromHigh]
    and [pctFromLow] are [((currentPrice - ref) / ref) * 100]; when an input
    is not finite or the denominator is zero (of either sign) they are [NaN].
    Both are total: no input makes them raise. *)
Theorem pct_correct :
  forall currentPrice ref : float,
    (isFinite currentPrice = true -> isFinite ref = true ->
     PrimFloat.eqb ref 0%float = false ->
     pctFromHigh currentPrice ref = (((currentPrice - ref) / ref) * 100)%float /\
     pctFromLow currentPrice ref = (((currentPrice - ref) / ref) * 100)%float) /\
    (isFinite currentPrice = false \/ isFinite ref = false \/
     PrimFloat.eqb ref 0%float = true ->
     pctFromHigh currentPrice ref = NaN /\ pctFromLow currentPrice ref = NaN) /\
    PrimFloat.is_nan NaN = true.
Proof.
  intros c h. unfold pctFromHigh, pctFromLow. split; [|split].
  - intros -> -> ->. now split.
  - intros [-> | [-> | ->]]; simpl; rewrite ?orb_true_r; now split.
  - reflexivity.
Qed.

(** 1200 against a high of 1500 and a low of 900; a high of zero, of either
    sign; an infinite price. *)
Lemma pct_correct_witness :
  pctFromHigh 1200 1500 = (-20)%float /\
  (pctFromLow 1200 900 <? 33.5)%float = true /\
  (33.25 <? pctFromLow 1200 900)%float = true /\
  pctFromHigh 1200 0 = NaN /\
  pctFromHigh 1200 (-0) = NaN /\
  pctFromLow infinity 900 = NaN.
Proof.
  repeat apply conj.
  - rewrite (proj1 (proj1 (pct_correct 1200 1500) eq_refl eq_refl eq_refl)).
    reflexivity.
  - rewrite (proj2 (proj1 (pct_correct 1200 900) eq_refl eq_refl eq_refl)).
    reflexivity.
  - rewrite (proj2 (proj1 (pct_correct 1200 900) eq_refl eq_refl eq_refl)).
    reflexivity.
  - exact (proj1 (proj1 (proj2 (pct_correct 1200 0)) (or_intror (or_intror eq_refl)))).
  - exact (proj1 (proj1 (proj2 (pct_correct 1200 (-0))) (or_intror (or_intror eq_refl)))).
  - exact (proj2 (proj1 (proj2 (pct_correct infinity 900)) (or_introl eq_refl))).
Defined.

(** ** White space, [trim] and the lines of a text *)

Lemma trimStart_nil_iff (s : string) :
  Js.trimStart s = EmptyString <-> all_white_space s = true.
Proof.
  induction s as [|c r IH]; simpl; [tauto|].
  destruct (Js.is_white_space c); simpl; [exact IH|].
  split; discriminate.
Qed.

Lemma trimEnd_nil_iff (s : string) :
  Js.trimEnd s = EmptyString <-> all_white_space s = true.
Proof.
  induction s as [|c r IH]; [simpl; tauto|].
  rewrite trimEnd_cons. simpl all_white_space.
  destruct (Js.trimEnd r) as [|d r'] eqn:E; simpl.
  - destruct (Js.is_white_space c); simpl.
    + split; [intros _; now apply IH | reflexivity].
    + split; discriminate.
  - split; [discriminate|]. intros H. apply andb_true_iff in H as [_ H].
    apply IH in H. discriminate.
Qed.

Lemma all_white_space_trimStart_eq (s : string) :
  all_white_space (Js.trimStart s) = all_white_space s.
Proof.
  induction s as [|c r IH]; simpl; [reflexivity|].
  destruct (Js.is_white_space c) eqn:W; simpl; [exact IH | now rewrite W].
Qed.

Lemma is_blank_all_white_space (s : string) :
  is_blank s = all_white_space s.
Proof.
  unfold is_blank, Js.trim.
  rewrite <- all_white_space_trimStart_eq.
  destruct (Js.trimEnd (Js.trimStart s)) eqn:E; simpl.
  - symmetry. now apply trimEnd_nil_iff.
  - destruct (all_white_space (Js.trimStart s)) eqn:A; [|reflexivity].
    apply trimEnd_nil_iff in A. congruence.
Qed.

Lemma Boolean_trimEnd (s : string) :
  Js.Boolean (Js.trimEnd s) = negb (all_white_space s).
Proof.
  destruct (Js.trimEnd s) eqn:E; simpl.
  - apply trimEnd_nil_iff in E. now rewrite E.
  - destruct (all_white_space s) eqn:A; [|reflexivity].
    apply trimEnd_nil_iff in A. congruence.
Qed.

Lemma trimEnd_idempotent (s : string) :
  Js.trimEnd (Js.trimEnd s) = Js.trimEnd s.
Proof.
  induction s as [|c r IH]; [reflexivity|].
  rewrite trimEnd_cons.
  destruct (Js.Boolean (Js.trimEnd r)) eqn:B.
  - rewrite trimEnd_cons, IH, B. reflexivity.
  - destruct (Js.is_white_space c) eqn:W; [reflexivity|].
    rewrite trimEnd_cons. simpl. now rewrite W.
Qed.

Lemma trimStart_trimEnd (s : string) :
  Js.trimStart (Js.trimEnd s) = Js.trimEnd (Js.trimStart s).
Proof.
  induction s as [|c r IH]; [reflexivity|].
  rewrite trimEnd_cons. simpl Js.trimStart at 2.
  destruct (Js.is_white_space c) eqn:W.
  - rewrite <- IH.
    destruct (Js.trimEnd r) eqn:E; simpl; [reflexivity | now rewrite W].
  - rewrite trimEnd_cons.
    destruct (Js.Boolean (Js.trimEnd r)); simpl; now rewrite W.
Qed.

Lemma trim_trimEnd (s : string) : Js.trim (Js.trimEnd s) = Js.trim s.
Proof.
  unfold Js.trim. now rewrite trimStart_trimEnd, trimEnd_idempotent.
Qed.

Lemma trim_cons_white_space (c : ascii) (s : string) :
  Js.is_white_space c = true -> Js.trim (String c s) = Js.trim s.
Proof. intros W. unfold Js.trim. simpl. now rewrite W. Qed.

Lemma split_not_nil (sep : ascii) (s : string) : Js.split sep s <> [].
Proof.
  destruct s as [|c r]; simpl; [discriminate|].
  destruct (Ascii.eqb c sep); [discriminate|].
  destruct (Js.split sep r); discriminate.
Qed.

(** [split] one character at a time. *)
Lemma split_cons (sep c : ascii) (r : string) :
  Js.split sep (String c r) =
  if Ascii.eqb c sep then EmptyString :: Js.split sep r
  else String c (hd EmptyString (Js.split sep r)) :: tl (Js.split sep r).
Proof.
  simpl. destruct (Ascii.eqb c sep); [reflexivity|].
  destruct (Js.split sep r) eqn:E; [|reflexivity].
  now apply split_not_nil in E.
Qed.

Lemma split_hd_tl (sep : ascii) (s : string) :
  Js.split sep s = hd EmptyString (Js.split sep s) :: tl (Js.split sep s).
Proof.
  destruct (Js.split sep s) eqn:E; [now apply split_not_nil in E | reflexivity].
Qed.

Lemma newline_white_space (c : ascii) :
  Ascii.eqb c newline = true -> Js.is_white_space c = true.
Proof. intros E. apply Ascii.eqb_eq in E. now subst. Qed.

Lemma all_white_space_lines (s : string) :
  forallb is_blank (Js.split newline s) = all_white_space s.
Proof.
  induction s as [|c r IH]; [reflexivity|].
  rewrite split_cons. simpl all_white_space.
  destruct (Ascii.eqb c newline) eqn:E.
  - rewrite (newline_white_space _ E). simpl. exact IH.
  - destruct (Js.split newline r) as [|h t] eqn:S; [now apply split_not_nil in S|].
    cbn [hd tl forallb] in *. rewrite <- IH, !is_blank_all_white_space.
    simpl. now rewrite andb_assoc.
Qed.

Lemma split_trimEnd (s : string) :
  Js.split newline (Js.trimEnd s) = trimEnd_lines (Js.split newline s).
Proof.
  induction s as [|c r IH]; [reflexivity|].
  rewrite trimEnd_cons, split_cons, Boolean_trimEnd, <- all_white_space_lines.
  destruct (Js.split newline r) as [|h0 t0] eqn:S; [now apply split_not_nil in S|].
  cbn [hd tl].
  destruct (Ascii.eqb c newline) eqn:E.
  - rewrite (newline_white_space _ E).
    change (trimEnd_lines (EmptyString :: h0 :: t0))
      with (if forallb is_blank (h0 :: t0) then [Js.trimEnd EmptyString]
            else EmptyString :: trimEnd_lines (h0 :: t0)).
    destruct (forallb is_blank (h0 :: t0)); simpl negb; cbv iota.
    + reflexivity.
    + now rewrite split_cons, E, IH.
  - change (trimEnd_lines (String c h0 :: t0))
      with (if forallb is_blank t0 then [Js.trimEnd (String c h0)]
            else String c h0 :: trimEnd_lines t0).
    rewrite (trimEnd_cons c h0), Boolean_trimEnd, <- is_blank_all_white_space.
    cbn [forallb]. cbn [trimEnd_lines] in IH.
    destruct (is_blank h0) eqn:B0, (forallb is_blank t0) eqn:F;
      simpl negb; cbv iota; rewrite ?split_cons, ?E, ?IH; cbn [hd tl];
      try reflexivity.
    destruct (Js.is_white_space c); [reflexivity|].
    now rewrite split_cons, E.
Qed.

Lemma symbols_of_lines_cons (l : string) (rest : list string) :
  symbols_of_lines (l :: rest) =
  if is_blank l then symbols_of_lines rest
  else Js.toUpperCase (Js.trim l) :: symbols_of_lines rest.
Proof. unfold symbols_of_lines. simpl. now destruct (is_blank l). Qed.

Lemma symbols_of_blank_lines (lines : list string) :
  forallb is_blank lines = true -> symbols_of_lines lines = [].
Proof.
  induction lines as [|l rest IH]; [reflexivity|].
  simpl. intros H. apply andb_true_iff in H as [B F].
  rewrite symbols_of_lines_cons, B. now apply IH.
Qed.

Lemma is_blank_trimEnd (l : string) : is_blank (Js.trimEnd l) = is_blank l.
Proof. unfold is_blank. now rewrite trim_trimEnd. Qed.

Lemma symbols_of_trimEnd_lines (lines : list string) :
  symbols_of_lines (trimEnd_lines lines) = symbols_of_lines lines.
Proof.
  induction lines as [|l rest IH]; [reflexivity|].
  cbn [trimEnd_lines]. destruct (forallb is_blank rest) eqn:F.
  - rewrite !symbols_of_lines_cons, is_blank_trimEnd, trim_trimEnd.
    now rewrite (symbols_of_blank_lines rest F).
  - now rewrite !symbols_of_lines_cons, IH.
Qed.

Lemma symbols_below_trimEnd_lines (lines : list string) :
  symbols_of_lines (skipn 1 (trimEnd_lines lines)) =
  symbols_of_lines (skipn 1 lines).
Proof.
  destruct lines as [|l rest]; [reflexivity|].
  cbn [trimEnd_lines]. destruct (forallb is_blank rest) eqn:F; simpl.
  - now rewrite (symbols_of_blank_lines rest F).
  - apply symbols_of_trimEnd_lines.
Qed.

Lemma split_trimStart (text : string) :
  match drop_blank (Js.split newline text) with
  | [] => Js.trimStart text = EmptyString
  | h :: t => Js.split newline (Js.trimStart text) = Js.trimStart h :: t
  end.
Proof.
  induction text as [|c r IH]; [reflexivity|].
  rewrite split_cons.
  destruct (Ascii.eqb c newline) eqn:E.
  - simpl. rewrite (newline_white_space _ E). exact IH.
  - destruct (Js.split newline r) as [|h0 t0] eqn:S; [now apply split_not_nil in S|].
    cbn [hd tl drop_blank] in *.
    destruct (Js.is_white_space c) eqn:W.
    + assert (B : is_blank (String c h0) = is_blank h0).
      { unfold is_blank. now rewrite trim_cons_white_space. }
      rewrite B. simpl Js.trimStart. rewrite W.
      destruct (is_blank h0); [exact IH|].
      simpl Js.trimStart. rewrite W. exact IH.
    + assert (B : is_blank (String c h0) = false).
      { rewrite is_blank_all_white_space. simpl. now rewrite W. }
      rewrite B. simpl Js.trimStart. rewrite W.
      now rewrite split_cons, E, S.
Qed.

Lemma parse_csv_lines (lines : list string) :
  map Js.toUpperCase (filter Js.nonempty (map Js.trim lines)) =
  symbols_of_lines lines.
Proof.
  induction lines as [|l rest IH]; [reflexivity|].
  rewrite symbols_of_lines_cons. simpl.
  rewrite Boolean_nonempty. unfold is_blank.
  destruct (Js.Boolean (Js.trim l)); simpl; now rewrite IH.
Qed.

(** The parsing of the route is the one the specification words, with the
    first line that is not blank as the header. *)
Lemma parse_csv_spec (text : string) : parse_csv text = spec_symbols text.
Proof.
  unfold parse_csv, spec_symbols, rows_below_header, Js.trim.
  rewrite parse_csv_lines, split_trimEnd, symbols_below_trimEnd_lines.
  pose proof (split_trimStart text) as H.
  destruct (drop_blank (Js.split newline text)) as [|h t].
  - now rewrite H.
  - now rewrite H.
Qed.

Lemma symbols_of_lines_shape (lines : list string) :
  Forall (fun s => s <> EmptyString /\ trimmed s /\ upper_case s)
         (symbols_of_lines lines).
Proof.
  induction lines as [|l rest IH]; [constructor|].
  rewrite symbols_of_lines_cons. unfold is_blank.
  destruct (Js.Boolean (Js.trim l)) eqn:B; simpl; [|exact IH].
  constructor; [|exact IH]. split; [|split].
  - apply Boolean_true_iff. now rewrite toUpperCase_Boolean.
  - apply toUpperCase_trimmed, trim_trimmed.
  - apply toUpperCase_upper_case.
Qed.

(** ** The GET handler *)

(** C7. When the reference file can be read the route answers HTTP 200 with
    the rows below the header row that are not blank, each trimmed and
    upper-cased, so that no symbol is empty, has white space at an end or a
    lower-case letter; when reading the file throws it answers HTTP 500 with
    an error string and no symbol. *)
Theorem GET_symbols :
  forall (text : string) (e : JsError),
    GET (FileContent text) =
    {| symbols_status := 200; symbols_error := None;
       symbols_list := spec_symbols text |} /\
    Forall (fun s => s <> EmptyString /\ trimmed s /\ upper_case s)
           (symbols_list (GET (FileContent text))) /\
    GET (ReadThrows e) =
    {| symbols_status := 500;
       symbols_error := Some "Failed to load stock symbols";
       symbols_list := [] |} /\
    symbols_list (GET (FileContent sample_csv)) = ["RELIANCE"; "TCS"; "INFY"].
Proof.
  intros text e. unfold GET. cbn [symbols_list].
  rewrite parse_csv_spec. repeat split.
  apply symbols_of_lines_shape.
Qed.

Lemma drop_blank_below (lines : list string) (x : string) :
  In x (skipn 1 (drop_blank lines)) -> In x (skipn 1 lines).
Proof.
  induction lines as [|l rest IH]; [tauto|].
  cbn [drop_blank]. destruct (is_blank l); [|tauto].
  intros H. apply IH in H. simpl.
  destruct rest; [contradiction | now right].
Qed.

(** C10. A reference file that can be read and whose lines below the first
    one hold white space only (or that has no such line) is answered with
    HTTP 200 and no symbol; HTTP 500 is the answer exactly when reading the
    file throws. *)
Theorem GET_header_only :
  forall text : string,
    Forall (fun l => all_white_space l = true)
           (skipn 1 (Js.split newline text)) ->
    GET (FileContent text) =
    {| symbols_status := 200; symbols_error := None; symbols_list := [] |} /\
    (forall file : FileRead,
       symbols_status (GET file) = 500%Z <-> exists e, file = ReadThrows e).
Proof.
  intros text H. split.
  - unfold GET. rewrite parse_csv_spec. unfold spec_symbols.
    rewrite symbols_of_blank_lines; [reflexivity|].
    apply forallb_forall. intros x Hx. rewrite is_blank_all_white_space.
    rewrite Forall_forall in H. apply H.
    now apply drop_blank_below.
  - intros [t|e]; simpl; split.
    + discriminate.
    + intros [e [=]].
    + intros _. now exists e.
    + reflexivity.
Qed.

(** A file with its header alone, and one with blank rows below it. *)
Lemma GET_header_only_witness :
  GET (FileContent "Symbol") =
  {| symbols_status := 200; symbols_error := None; symbols_list := [] |} /\
  GET (FileContent header_only_csv) =
  {| symbols_status := 200; symbols_error := None; symbols_list := [] |}.
Proof.
  split.
  - apply (GET_header_only "Symbol"). constructor.
  - apply (GET_header_only header_only_csv). repeat constructor.
Defined.


(* ================================================================= *)
(** * Further properties of the routes and of the page *)

(** ** More on strings *)

Lemma append_nil_r (s : string) : (s ++ "")%string = s.
Proof. induction s as [|c r IH]; simpl; [reflexivity | now rewrite IH]. Qed.

Lemma append_assoc (a b c : string) :
  ((a ++ b) ++ c)%string = (a ++ (b ++ c))%string.
Proof. induction a as [|x a IH]; simpl; [reflexivity | now rewrite IH]. Qed.

Lemma toUpperChar_idempotent (c : ascii) :
  Js.toUpperChar (Js.toUpperChar c) = Js.toUpperChar c.
Proof.
  destruct c as [b0 b1 b2 b3 b4 b5 b6 b7].
  destruct b0, b1, b2, b3, b4, b5, b6, b7; reflexivity.
Qed.

Lemma toUpperChar_comma (c : ascii) :
  Ascii.eqb (Js.toUpperChar c) "," = Ascii.eqb c ",".
Proof.
  destruct c as [b0 b1 b2 b3 b4 b5 b6 b7].
  destruct b0, b1, b2, b3, b4, b5, b6, b7; reflexivity.
Qed.

Lemma toUpperChar_dot (c : ascii) :
  Ascii.eqb (Js.toUpperChar c) "." = Ascii.eqb c ".".
Proof.
  destruct c as [b0 b1 b2 b3 b4 b5 b6 b7].
  destruct b0, b1, b2, b3, b4, b5, b6, b7; reflexivity.
Qed.

Lemma toUpperCase_idempotent (s : string) :
  Js.toUpperCase (Js.toUpperCase s) = Js.toUpperCase s.
Proof.
  induction s as [|c r IH]; simpl; [reflexivity|].
  now rewrite toUpperChar_idempotent, IH.
Qed.

Lemma toUpperCase_append (a b : string) :
  Js.toUpperCase (a ++ b) = (Js.toUpperCase a ++ Js.toUpperCase b)%string.
Proof. induction a as [|c a IH]; simpl; [reflexivity | now rewrite IH]. Qed.

Lemma toUpperCase_trimStart (s : string) :
  Js.toUpperCase (Js.trimStart s) = Js.trimStart (Js.toUpperCase s).
Proof.
  induction s as [|c r IH]; simpl; [reflexivity|].
  rewrite toUpperChar_white_space.
  destruct (Js.is_white_space c); [exact IH | reflexivity].
Qed.

Lemma toUpperCase_trimEnd (s : string) :
  Js.toUpperCase (Js.trimEnd s) = Js.trimEnd (Js.toUpperCase s).
Proof.
  induction s as [|c r IH]; [reflexivity|].
  simpl Js.toUpperCase at 2. rewrite !trimEnd_cons, <- IH.
  rewrite toUpperCase_Boolean, toUpperChar_white_space.
  destruct (Js.Boolean (Js.trimEnd r)); [reflexivity|].
  now destruct (Js.is_white_space c).
Qed.

Lemma toUpperCase_trim (s : string) :
  Js.toUpperCase (Js.trim s) = Js.trim (Js.toUpperCase s).
Proof.
  unfold Js.trim. now rewrite toUpperCase_trimEnd, toUpperCase_trimStart.
Qed.

Lemma trimStart_idempotent (s : string) :
  Js.trimStart (Js.trimStart s) = Js.trimStart s.
Proof.
  induction s as [|c r IH]; simpl; [reflexivity|].
  destruct (Js.is_white_space c) eqn:W; [exact IH | simpl; now rewrite W].
Qed.

Lemma trim_idempotent (s : string) : Js.trim (Js.trim s) = Js.trim s.
Proof.
  unfold Js.trim.
  now rewrite <- trimStart_trimEnd, trimEnd_idempotent, trimStart_trimEnd,
    trimStart_idempotent.
Qed.

Lemma trimStart_padding (w s : string) :
  all_white_space w = true -> Js.trimStart (w ++ s) = Js.trimStart s.
Proof.
  induction w as [|c w IH]; simpl; [reflexivity|].
  intros H. apply andb_true_iff in H as [W A]. rewrite W. now apply IH.
Qed.

Lemma trimEnd_padding (s w : string) :
  all_white_space w = true -> Js.trimEnd (s ++ w) = Js.trimEnd s.
Proof.
  intros A. induction s as [|c r IH].
  - simpl. now apply trimEnd_nil_iff.
  - change (String c r ++ w)%string with (String c (r ++ w)).
    now rewrite !trimEnd_cons, IH.
Qed.

Lemma trim_padding (w1 s w2 : string) :
  all_white_space w1 = true -> all_white_space w2 = true ->
  Js.trim (w1 ++ s ++ w2) = Js.trim s.
Proof.
  intros A1 A2. unfold Js.trim.
  rewrite (trimStart_padding w1 _ A1), <- !trimStart_trimEnd.
  now rewrite (trimEnd_padding s w2 A2).
Qed.

(** ** More on [split] *)

Lemma split_append (sep : ascii) (a b : string) :
  Js.split sep (a ++ String sep b) = Js.split sep a ++ Js.split sep b.
Proof.
  induction a as [|c a IH].
  - simpl. now rewrite Ascii.eqb_refl.
  - change (String c a ++ String sep b)%string with (String c (a ++ String sep b)).
    rewrite !split_cons, IH.
    destruct (Ascii.eqb c sep); [reflexivity|].
    destruct (Js.split sep a) as [|h t] eqn:S; [now apply split_not_nil in S|].
    reflexivity.
Qed.

Lemma split_no_char (sep : ascii) (s : string) :
  no_char sep s = true -> Js.split sep s = [s].
Proof.
  induction s as [|c r IH]; simpl; [reflexivity|].
  intros H. apply andb_true_iff in H as [N A].
  apply negb_true_iff in N. rewrite N, (IH A). reflexivity.
Qed.

Lemma split_pieces_no_char (sep : ascii) (s piece : string) :
  In piece (Js.split sep s) -> no_char sep piece = true.
Proof.
  revert piece. induction s as [|c r IH]; intros piece.
  - simpl. intros [<-|[]]. reflexivity.
  - rewrite split_cons. destruct (Ascii.eqb c sep) eqn:E.
    + intros [<-|H]; [reflexivity | now apply IH].
    + destruct (Js.split sep r) as [|h t] eqn:S; [now apply split_not_nil in S|].
      cbn [hd tl]. intros [<-|H].
      * simpl. rewrite E. simpl. apply IH. now left.
      * apply IH. now right.
Qed.

Lemma split_toUpperCase (sep : ascii) (s : string) :
  (forall c, Ascii.eqb (Js.toUpperChar c) sep = Ascii.eqb c sep) ->
  Js.split sep (Js.toUpperCase s) = map Js.toUpperCase (Js.split sep s).
Proof.
  intros K. induction s as [|c r IH]; [reflexivity|].
  simpl Js.toUpperCase. rewrite !split_cons, K, IH.
  destruct (Ascii.eqb c sep); [reflexivity|].
  destruct (Js.split sep r) as [|h t] eqn:S; [now apply split_not_nil in S|].
  reflexivity.
Qed.

Lemma no_char_append (c : ascii) (a b : string) :
  no_char c (a ++ b) = no_char c a && no_char c b.
Proof.
  induction a as [|x a IH]; simpl; [reflexivity|].
  now rewrite IH, andb_assoc.
Qed.

Lemma no_char_toUpperCase (sep : ascii) (s : string) :
  (forall c, Ascii.eqb (Js.toUpperChar c) sep = Ascii.eqb c sep) ->
  no_char sep (Js.toUpperCase s) = no_char sep s.
Proof.
  intros K. induction s as [|c r IH]; simpl; [reflexivity|].
  now rewrite K, IH.
Qed.

Lemma no_char_trimStart (c : ascii) (s : string) :
  no_char c s = true -> no_char c (Js.trimStart s) = true.
Proof.
  induction s as [|d r IH]; simpl; [reflexivity|].
  intros H. destruct (Js.is_white_space d); [|exact H].
  apply andb_true_iff in H as [_ A]. now apply IH.
Qed.

Lemma no_char_trimEnd (c : ascii) (s : string) :
  no_char c s = true -> no_char c (Js.trimEnd s) = true.
Proof.
  induction s as [|d r IH]; [reflexivity|].
  rewrite trimEnd_cons. simpl. intros H. apply andb_true_iff in H as [N A].
  destruct (Js.Boolean (Js.trimEnd r)).
  - simpl. now rewrite N, (IH A).
  - destruct (Js.is_white_space d); [reflexivity|]. simpl. now rewrite N.
Qed.

Lemma no_char_trim (c : ascii) (s : string) :
  no_char c s = true -> no_char c (Js.trim s) = true.
Proof. intros H. now apply no_char_trimEnd, no_char_trimStart. Qed.

(** ** The POST handler: statuses and calls *)

Lemma normalize_NoDup (raw : string) : NoDup (normalize raw).
Proof.
  unfold normalize, unique_symbols.
  rewrite new_Set_first_occurrences. apply first_occurrences_NoDup.
Qed.

Lemma symbol_tokens_shape (raw t : string) :
  In t (symbol_tokens raw) ->
  t <> EmptyString /\ trimmed t /\ upper_case t.
Proof.
  intros H. apply symbol_tokens_In in H as [N [p [_ ->]]].
  split; [exact N|]. split.
  - apply toUpperCase_trimmed, trim_trimmed.
  - apply toUpperCase_upper_case.
Qed.

(** X1. The route answers with one of three shapes and nothing else: HTTP
    200 with a results array, HTTP 400 with the validation message, or HTTP
    500 with an error string; results never come with an error status and
    an error string never comes with HTTP 200. *)
Theorem POST_three_shapes :
  forall (P : Providers) (req : RequestBody),
    (exists results,
       POST P req = {| status := 200; payload := ResultsPayload results |}) \/
    POST P req = {| status := 400;
                    payload := ErrorPayload "No symbols provided." |} \/
    (exists err,
       fst (POST_try P req) = Throw err /\
       POST P req =
       {| status := 500;
          payload := ErrorPayload match message err with
                                  | Some m => m
                                  | None => generic_message
                                  end |}).
Proof.
  intros P req. unfold POST.
  destruct (request_raw req) as [raw|e] eqn:R.
  - destruct (symbol_tokens raw) as [|t ts] eqn:T.
    + right; left. now rewrite (POST_try_no_symbols P req raw R T).
    + assert (T' : symbol_tokens raw <> []) by congruence.
      rewrite (POST_try_symbols P req raw R T'). simpl.
      destruct (Promise_all (map (insight_task P) (normalize raw))) as [vs|e].
      * left. now exists vs.
      * right; right. now exists e.
  - right; right. rewrite (POST_try_raw_throws P req e R). now exists e.
Qed.

Lemma task_calls_symbol (P : Providers) (s : string) (c : Call) :
  In c (task_calls P s) -> call_symbol c = s.
Proof.
  unfold task_calls. destruct (buildStockInsight P s); simpl.
  - intros [<-|[<-|[]]]; reflexivity.
  - intros [<-|[]]; reflexivity.
Qed.

Lemma task_calls_NoDup (P : Providers) (s : string) : NoDup (task_calls P s).
Proof.
  unfold task_calls. destruct (buildStockInsight P s).
  - constructor; [|constructor; [|constructor]]; simpl; [|tauto].
    intros [H|[]]. discriminate.
  - constructor; [|constructor]. simpl. tauto.
Qed.

Lemma flat_map_calls_NoDup (P : Providers) (l : list string) :
  NoDup l -> NoDup (flat_map (task_calls P) l).
Proof.
  induction 1 as [|s l Hs Hl IH]; cbn [flat_map]; [constructor|].
  apply NoDup_app; [apply task_calls_NoDup | exact IH |].
  intros c Hc Hc'. apply task_calls_symbol in Hc.
  apply in_flat_map in Hc' as [s' [Hs' Hc']].
  apply task_calls_symbol in Hc'. congruence.
Qed.

Lemma POST_calls_cases (P : Providers) (req : RequestBody) :
  POST_calls P req = [] \/
  exists raw, request_raw req = Normal raw /\
              POST_calls P req = flat_map (task_calls P) (normalize raw).
Proof.
  unfold POST_calls. destruct (request_raw req) as [raw|e] eqn:R.
  - destruct (symbol_tokens raw) as [|t ts] eqn:T.
    + left. now rewrite (POST_try_no_symbols P req raw R T).
    + right. exists raw. split; [reflexivity|].
      rewrite (POST_try_symbols P req raw R); [reflexivity | congruence].
  - left. now rewrite (POST_try_raw_throws P req e R).
Qed.

(** X2. Whatever the request, the route calls each collaborator at most
    once per symbol, however often the symbol was entered; it asks for the
    bulk deals of a symbol only where [buildStockInsight] fulfilled for it;
    and every symbol it passes on is non-empty, trimmed and upper-case. *)
Theorem POST_calls_once :
  forall (P : Providers) (req : RequestBody),
    NoDup (POST_calls P req) /\
    (forall s, In (CallFetchBulkDeals s) (POST_calls P req) ->
       In (CallBuildStockInsight s) (POST_calls P req) /\
       exists base, buildStockInsight P s = Fulfilled base) /\
    (forall c, In c (POST_calls P req) ->
       call_symbol c <> EmptyString /\ trimmed (call_symbol c) /\
       upper_case (call_symbol c)).
Proof.
  intros P req.
  destruct (POST_calls_cases P req) as [->|[raw [R ->]]].
  - split; [constructor|]. split; intros ? [].
  - split; [|split].
    + apply flat_map_calls_NoDup, normalize_NoDup.
    + intros s H. apply in_flat_map in H as [s' [Hs' H]].
      pose proof (task_calls_symbol _ _ _ H) as E. simpl in E. subst s'.
      split.
      * apply in_flat_map. exists s. split; [exact Hs' | now left].
      * unfold task_calls in H.
        destruct (buildStockInsight P s) as [base|e]; [now exists base|].
        destruct H as [H|[]]. discriminate.
    + intros c H. apply in_flat_map in H as [s [Hs H]].
      rewrite (task_calls_symbol _ _ _ H).
      apply (symbol_tokens_shape raw). now apply normalize_In.
Qed.

(** ** Normalisation: letter case and its own output *)

Lemma symbol_tokens_toUpperCase (raw : string) :
  symbol_tokens (Js.toUpperCase raw) = symbol_tokens raw.
Proof.
  unfold symbol_tokens.
  rewrite (split_toUpperCase "," raw toUpperChar_comma), map_map.
  f_equal. apply map_ext. intros p.
  now rewrite <- toUpperCase_trim, toUpperCase_idempotent.
Qed.

(** X3. Symbols are case-insensitive: a raw input and its upper-cased form
    normalise to the same list, so the route answers both alike. *)
Theorem normalize_case_insensitive :
  forall (P : Providers) (raw : string),
    normalize (Js.toUpperCase raw) = normalize raw /\
    POST P (with_symbols (JStr (Js.toUpperCase raw))) =
    POST P (with_symbols (JStr raw)).
Proof.
  intros P raw. split.
  - unfold normalize. now rewrite symbol_tokens_toUpperCase.
  - unfold POST, POST_try. rewrite !request_raw_string. cbv zeta.
    now rewrite symbol_tokens_toUpperCase.
Qed.

Lemma join_join_with (pieces : list string) :
  Js.join pieces = Js.join_with "," pieces.
Proof.
  induction pieces as [|p rest IH]; [reflexivity|].
  simpl. destruct rest; [reflexivity | now rewrite IH].
Qed.

Lemma split_prefix_no_char (sep : ascii) (a s : string) :
  no_char sep a = true ->
  Js.split sep (a ++ s) =
  (a ++ hd EmptyString (Js.split sep s))%string :: tl (Js.split sep s).
Proof.
  induction a as [|c a IH]; intros H.
  - simpl. apply split_hd_tl.
  - simpl in H. apply andb_true_iff in H as [N A]. apply negb_true_iff in N.
    change (String c a ++ s)%string with (String c (a ++ s)).
    rewrite split_cons, N, (IH A). reflexivity.
Qed.

Lemma split_join_with (pad : string) (pieces : list string) :
  no_char "," pad = true ->
  Forall (fun p => no_char "," p = true) pieces ->
  Js.split "," (Js.join_with (String "," pad) pieces) =
  match pieces with
  | [] => [EmptyString]
  | p :: rest => p :: map (String.append pad) rest
  end.
Proof.
  intros Hpad H. induction H as [|p rest Hp Hrest IH]; [reflexivity|].
  destruct rest as [|q rest'].
  - simpl. now apply split_no_char.
  - change (Js.join_with (String "," pad) (p :: q :: rest'))
      with (p ++ String "," (pad ++ Js.join_with (String "," pad) (q :: rest')))%string.
    rewrite split_append, (split_no_char _ _ Hp).
    rewrite (split_prefix_no_char _ _ _ Hpad), IH. reflexivity.
Qed.

Lemma symbol_tokens_well_formed (raw t : string) :
  In t (symbol_tokens raw) -> well_formed_symbol t.
Proof.
  intros H. apply symbol_tokens_In in H as [N [p [Hp ->]]].
  split; [now apply Boolean_true_iff|]. split.
  - now rewrite <- toUpperCase_trim, toUpperCase_idempotent, trim_idempotent.
  - rewrite (no_char_toUpperCase _ _ toUpperChar_comma).
    apply no_char_trim. now apply (split_pieces_no_char _ raw).
Qed.

Lemma tokens_of_padded (pad : string) (l : list string) :
  all_white_space pad = true ->
  Forall well_formed_symbol l ->
  tokens_of (map (String.append pad) l) = l.
Proof.
  intros A H. unfold tokens_of.
  induction H as [|t l [B [E _]] Hl IH]; [reflexivity|].
  cbn [map]. unfold Js.trim at 1.
  rewrite (trimStart_padding pad t A). fold (Js.trim t).
  rewrite E. cbn [filter]. rewrite B. f_equal. exact IH.
Qed.

Lemma tokens_of_well_formed (l : list string) :
  Forall well_formed_symbol l -> tokens_of l = l.
Proof.
  intros H. rewrite <- (tokens_of_padded EmptyString l eq_refl H) at 2.
  f_equal. symmetry. erewrite map_ext; [apply map_id | reflexivity].
Qed.

Lemma white_space_no_comma (pad : string) :
  all_white_space pad = true -> no_char "," pad = true.
Proof.
  induction pad as [|c r IH]; simpl; [reflexivity|].
  intros H. apply andb_true_iff in H as [W A].
  now rewrite (white_space_not_comma _ W), (IH A).
Qed.

Lemma symbol_tokens_join_with (pad : string) (l : list string) :
  all_white_space pad = true ->
  Forall well_formed_symbol l ->
  symbol_tokens (Js.join_with (String "," pad) l) = l.
Proof.
  intros A H. change (symbol_tokens ?r) with (tokens_of (Js.split "," r)).
  rewrite split_join_with.
  - destruct l as [|t l]; [reflexivity|].
    inversion H as [|? ? Ht Hl]; subst.
    change (tokens_of (t :: ?m)) with (tokens_of ([t] ++ m)).
    unfold tokens_of. rewrite map_app, filter_app.
    fold (tokens_of [t]). fold (tokens_of (map (String.append pad) l)).
    rewrite (tokens_of_padded pad l A Hl).
    rewrite (tokens_of_well_formed [t]); [reflexivity | now constructor].
  - now apply white_space_no_comma.
  - eapply Forall_impl; [|exact H]. intros t [_ [_ N]]. exact N.
Qed.

(** X4. Normalisation reads its own output back: joining the normalised
    symbols with [","] or with [", "] (the way the page shows them) and
    normalising again gives the same list. *)
Theorem normalize_join_round_trip :
  forall raw : string,
    normalize (Js.join (normalize raw)) = normalize raw /\
    normalize (Js.join_with ", " (normalize raw)) = normalize raw /\
    HomePage.activeSymbols (Js.join_with ", " (HomePage.activeSymbols raw)) =
    HomePage.activeSymbols raw.
Proof.
  intros raw.
  assert (W : Forall well_formed_symbol (symbol_tokens raw)).
  { apply Forall_forall. intros t. apply symbol_tokens_well_formed. }
  assert (N : Forall well_formed_symbol (normalize raw)).
  { apply Forall_forall. intros t H. apply normalize_In in H.
    now apply (symbol_tokens_well_formed raw). }
  assert (U : unique_symbols (normalize raw) = normalize raw).
  { unfold unique_symbols. rewrite new_Set_first_occurrences.
    apply first_occurrences_NoDup_id, normalize_NoDup. }
  split; [|split].
  - rewrite join_join_with. unfold normalize at 1.
    now rewrite (symbol_tokens_join_with EmptyString _ eq_refl N).
  - unfold normalize at 1.
    now rewrite (symbol_tokens_join_with " " _ eq_refl N).
  - change HomePage.activeSymbols with symbol_tokens.
    apply (symbol_tokens_join_with " " _ eq_refl W).
Qed.

(** ** The GET handler: white space around the file *)

(** X5. White space before the first line or after the last line of the
    reference file (a final line end, blank lines) does not change the
    answer of the route. *)
Theorem GET_padding :
  forall before text after : string,
    all_white_space before = true ->
    all_white_space after = true ->
    GET (FileContent (before ++ text ++ after)) = GET (FileContent text).
Proof.
  intros w1 text w2 A1 A2. unfold GET, parse_csv.
  now rewrite (trim_padding w1 text w2 A1 A2).
Qed.

(** The sample file after a blank first line and before two line ends. *)
Lemma GET_padding_witness :
  symbols_list (GET (FileContent (CRLF ++ sample_csv ++ (LF ++ LF)))) =
  ["RELIANCE"; "TCS"; "INFY"].
Proof.
  rewrite (GET_padding CRLF sample_csv (LF ++ LF) eq_refl eq_refl).
  reflexivity.
Defined.

(** ** The page: [stripExchangeSuffix] *)

Lemma endsWith_append (a suffix : string) :
  Js.endsWith (a ++ suffix) suffix = true.
Proof.
  induction a as [|c a IH].
  - change (Js.endsWith suffix suffix = true).
    destruct suffix; cbn [Js.endsWith]; now rewrite String.eqb_refl.
  - change (String c a ++ suffix)%string with (String c (a ++ suffix)).
    cbn [Js.endsWith]. rewrite IH. apply orb_true_r.
Qed.

Lemma endsWith_has_char (c : ascii) (t suffix : string) :
  Js.endsWith t suffix = true -> no_char c suffix = false ->
  no_char c t = false.
Proof.
  intros E N. induction t as [|d r IH].
  - cbn [Js.endsWith] in E. rewrite orb_false_r in E.
    apply String.eqb_eq in E. now subst.
  - cbn [Js.endsWith] in E. apply orb_true_iff in E as [E|E].
    + apply String.eqb_eq in E. now subst.
    + simpl. rewrite (IH E). apply andb_false_r.
Qed.

Lemma no_dot_no_exchange_suffix (t : string) :
  no_char "." t = true -> has_exchange_suffix t = false.
Proof.
  intros N. unfold has_exchange_suffix.
  destruct (Js.endsWith t ".NS") eqn:E1.
  { rewrite (endsWith_has_char "." _ _ E1 eq_refl) in N. discriminate. }
  destruct (Js.endsWith t ".BSE") eqn:E2.
  { rewrite (endsWith_has_char "." _ _ E2 eq_refl) in N. discriminate. }
  destruct (Js.endsWith t ".BO") eqn:E3.
  { rewrite (endsWith_has_char "." _ _ E3 eq_refl) in N. discriminate. }
  reflexivity.
Qed.

Lemma hd_split_no_char (sep : ascii) (s : string) :
  no_char sep (hd EmptyString (Js.split sep s)) = true.
Proof.
  apply (split_pieces_no_char sep s). rewrite (split_hd_tl sep s) at 2. now left.
Qed.

Lemma hd_split_toUpperCase (s : string) :
  hd EmptyString (Js.split "." (Js.toUpperCase s)) =
  Js.toUpperCase (hd EmptyString (Js.split "." s)).
Proof.
  rewrite (split_toUpperCase "." s toUpperChar_dot).
  now destruct (Js.split "." s).
Qed.

Lemma stripExchangeSuffix_cases (s : string) :
  HomePage.stripExchangeSuffix s =
  if has_exchange_suffix (Js.toUpperCase s)
  then Js.toUpperCase (hd EmptyString (Js.split "." s))
  else Js.toUpperCase s.
Proof.
  unfold HomePage.stripExchangeSuffix, has_exchange_suffix.
  now rewrite hd_split_toUpperCase.
Qed.

(** X6. [stripExchangeSuffix] is idempotent and its result is upper-case:
    a displayed symbol displays as itself.  The result either is the
    upper-cased symbol or holds no dot. *)
Theorem stripExchangeSuffix_idempotent :
  forall s : string,
    HomePage.stripExchangeSuffix (HomePage.stripExchangeSuffix s) =
    HomePage.stripExchangeSuffix s /\
    upper_case (HomePage.stripExchangeSuffix s) /\
    (HomePage.stripExchangeSuffix s = Js.toUpperCase s \/
     no_char "." (HomePage.stripExchangeSuffix s) = true).
Proof.
  intros s. rewrite (stripExchangeSuffix_cases s).
  destruct (has_exchange_suffix (Js.toUpperCase s)) eqn:E.
  - assert (N : no_char "." (Js.toUpperCase (hd EmptyString (Js.split "." s))) = true).
    { rewrite (no_char_toUpperCase _ _ toUpperChar_dot). apply hd_split_no_char. }
    split; [|split].
    + rewrite stripExchangeSuffix_cases, toUpperCase_idempotent.
      now rewrite (no_dot_no_exchange_suffix _ N).
    + apply toUpperCase_upper_case.
    + now right.
  - split; [|split].
    + now rewrite stripExchangeSuffix_cases, toUpperCase_idempotent, E.
    + apply toUpperCase_upper_case.
    + now left.
Qed.

(** X7. When the upper-cased symbol ends in [.NS], [.BSE] or [.BO], the
    displayed symbol is what stands before the first dot, upper-cased:
    the suffix goes, and so does anything between the first dot and the
    suffix. *)
Theorem stripExchangeSuffix_first_dot :
  forall base rest : string,
    no_char "." base = true ->
    has_exchange_suffix (Js.toUpperCase (base ++ String "." rest)) = true ->
    HomePage.stripExchangeSuffix (base ++ String "." rest) =
    Js.toUpperCase base.
Proof.
  intros base rest N E.
  rewrite stripExchangeSuffix_cases, E.
  rewrite split_append, (split_no_char _ _ N). reflexivity.
Qed.

(** [reliance.ns], [tcs.Bo] and [brk.b.ns]. *)
Lemma stripExchangeSuffix_first_dot_witness :
  HomePage.stripExchangeSuffix "reliance.ns" = "RELIANCE" /\
  HomePage.stripExchangeSuffix "tcs.Bo" = "TCS" /\
  HomePage.stripExchangeSuffix "brk.b.ns" = "BRK".
Proof.
  repeat apply conj.
  - exact (stripExchangeSuffix_first_dot "reliance" "ns" eq_refl eq_refl).
  - exact (stripExchangeSuffix_first_dot "tcs" "Bo" eq_refl eq_refl).
  - exact (stripExchangeSuffix_first_dot "brk" "b.ns" eq_refl eq_refl).
Defined.

(** ** The page: [classifyDelta] *)

(** X8. A percentage that [pctFromHigh] or [pctFromLow] could not compute
    (an input that is not finite, a zero reference price) is shown as
    neutral, never as a gain or a loss, and so is a missing percentage. *)
Theorem classifyDelta_sentinel :
  forall currentPrice ref : float,
    isFinite currentPrice = false \/ isFinite ref = false \/
    PrimFloat.eqb ref 0%float = true ->
    HomePage.classifyDelta (Some (pctFromHigh currentPrice ref)) = "delta-neutral" /\
    HomePage.classifyDelta (Some (pctFromLow currentPrice ref)) = "delta-neutral" /\
    HomePage.classifyDelta None = "delta-neutral".
Proof.
  intros c h H.
  assert (E : pctFromHigh c h = NaN /\ pctFromLow c h = NaN).
  { unfold pctFromHigh, pctFromLow.
    destruct H as [-> | [-> | ->]]; simpl; rewrite ?orb_true_r; now split. }
  destruct E as [-> ->]. repeat split.
Qed.

(** A high of zero, an infinite price. *)
Lemma classifyDelta_sentinel_witness :
  HomePage.classifyDelta (Some (pctFromHigh 1200 0)) = "delta-neutral" /\
  HomePage.classifyDelta (Some (pctFromLow infinity 900)) = "delta-neutral".
Proof.
  split.
  - exact (proj1 (classifyDelta_sentinel 1200 0 (or_intror (or_intror eq_refl)))).
  - exact (proj1 (proj2 (classifyDelta_sentinel infinity 900 (or_introl eq_refl)))).
Defined.

(** ** The page: [handleFetch] *)

Lemma handleFetch_blocked (fetch : RequestBody -> HomePage.FetchResult)
      (st : HomePage.State) :
  symbol_tokens (HomePage.symbolsInput st) = [] ->
  snd (HomePage.handleFetch fetch st) = None /\
  HomePage.validationError (fst (HomePage.handleFetch fetch st)) =
  Some "Please enter at least one stock symbol.".
Proof.
  intros T. unfold HomePage.handleFetch.
  change (HomePage.activeSymbols ?x) with (symbol_tokens x).
  rewrite T. now split.
Qed.

Lemma handleFetch_sent (fetch : RequestBody -> HomePage.FetchResult)
      (st : HomePage.State) :
  symbol_tokens (HomePage.symbolsInput st) <> [] ->
  HomePage.handleFetch fetch st =
  let request := with_symbols (JStr (HomePage.symbolsInput st)) in
  match HomePage.fetched (fetch request) with
  | Normal rs =>
      (HomePage.mkState (HomePage.symbolsInput st) false None None rs
         (HomePage.stockSuggestions st) (HomePage.currentWord st)
         (HomePage.showSuggestions st) (HomePage.selectedIndex st),
       Some request)
  | Throw err =>
      (HomePage.mkState (HomePage.symbolsInput st) false
         (Some match message err with
               | Some m => m
               | None => "Failed to fetch stock insights."
               end)
         None [] (HomePage.stockSuggestions st) (HomePage.currentWord st)
         (HomePage.showSuggestions st) (HomePage.selectedIndex st),
       Some request)
  end.
Proof.
  intros T. unfold HomePage.handleFetch.
  change (HomePage.activeSymbols ?x) with (symbol_tokens x).
  destruct (symbol_tokens (HomePage.symbolsInput st)); [congruence | reflexivity].
Qed.

(** X9. The page and the route apply the same check to the text box: when
    the page refuses to send (its validation message), the route would
    have answered HTTP 400; when the page sends, it sends the text as the
    [symbols] string and the route answers HTTP 200 or 500, never 400. *)
Theorem handleFetch_validation_agrees :
  forall (fetch : RequestBody -> HomePage.FetchResult) (P : Providers)
         (st : HomePage.State),
    let req := with_symbols (JStr (HomePage.symbolsInput st)) in
    (snd (HomePage.handleFetch fetch st) = None /\
     HomePage.validationError (fst (HomePage.handleFetch fetch st)) =
     Some "Please enter at least one stock symbol." /\
     POST P req = no_symbols_response) \/
    (snd (HomePage.handleFetch fetch st) = Some req /\
     HomePage.validationError (fst (HomePage.handleFetch fetch st)) = None /\
     (status (POST P req) = 200%Z \/ status (POST P req) = 500%Z)).
Proof.
  intros fetch P st req.
  destruct (symbol_tokens (HomePage.symbolsInput st)) as [|t ts] eqn:T.
  - left. destruct (handleFetch_blocked fetch st T) as [H1 H2].
    split; [exact H1|]. split; [exact H2|].
    unfold POST.
    now rewrite (POST_try_no_symbols P req _ (request_raw_string _) T).
  - right.
    assert (T' : symbol_tokens (HomePage.symbolsInput st) <> []) by congruence.
    rewrite (handleFetch_sent fetch st T'). cbv zeta. fold req.
    split; [now destruct (HomePage.fetched (fetch req))|].
    split; [now destruct (HomePage.fetched (fetch req))|].
    unfold POST.
    rewrite (POST_try_symbols P req _ (request_raw_string _) T'). simpl.
    destruct (Promise_all _); simpl; [now left | now right].
Qed.

(** X10. Once [handleFetch] has sent its request, the page is no longer
    loading and shows either the results it received and no error, or an
    error and no result; a response whose status is not 2xx always ends in
    the second case, whatever its body. *)
Theorem handleFetch_outcome :
  forall (fetch : RequestBody -> HomePage.FetchResult) (st : HomePage.State)
         (req : RequestBody),
    snd (HomePage.handleFetch fetch st) = Some req ->
    let st' := fst (HomePage.handleFetch fetch st) in
    req = with_symbols (JStr (HomePage.symbolsInput st)) /\
    HomePage.loading st' = false /\
    HomePage.validationError st' = None /\
    ((HomePage.apiError st' = None /\
      HomePage.fetched (fetch req) = Normal (HomePage.results st')) \/
     (exists m, HomePage.apiError st' = Some m /\ HomePage.results st' = [])) /\
    (forall status json,
       fetch req = HomePage.FetchResolves status json ->
       HomePage.ok status = false ->
       HomePage.results st' = [] /\
       exists m, HomePage.apiError st' = Some m).
Proof.
  intros fetch st req H st'. subst st'.
  destruct (symbol_tokens (HomePage.symbolsInput st)) as [|t ts] eqn:T.
  - rewrite (proj1 (handleFetch_blocked fetch st T)) in H. discriminate.
  - assert (T' : symbol_tokens (HomePage.symbolsInput st) <> []) by congruence.
    rewrite (handleFetch_sent fetch st T') in *. cbv zeta in *.
    assert (R : req = with_symbols (JStr (HomePage.symbolsInput st))).
    { destruct (HomePage.fetched _); simpl in H; congruence. }
    rewrite <- R in *. clear H.
    destruct (HomePage.fetched (fetch req)) as [rs|err] eqn:F; simpl.
    + split; [reflexivity|]. split; [reflexivity|]. split; [reflexivity|].
      split; [left; now split|].
      intros status json E K. exfalso. rewrite E in F.
      destruct json as [j|e]; simpl in F; [|discriminate].
      rewrite K in F. discriminate.
    + split; [reflexivity|]. split; [reflexivity|]. split; [reflexivity|].
      split; [right; eexists; now split|].
      intros status json _ _. split; [reflexivity|]. eexists; reflexivity.
Qed.

(** A gateway that answers HTTP 502 with an HTML page. *)
Lemma handleFetch_outcome_witness :
  HomePage.results (fst (HomePage.handleFetch bad_gateway sample_page)) = [] /\
  HomePage.apiError (fst (HomePage.handleFetch bad_gateway sample_page)) =
  Some "Unexpected token < in JSON at position 0" /\
  HomePage.loading (fst (HomePage.handleFetch bad_gateway sample_page)) = false.
Proof.
  destruct (handleFetch_outcome bad_gateway sample_page
              (with_symbols (JStr "reliance, ")) eq_refl)
    as [_ [L [_ [_ K]]]].
  destruct (K 502%Z _ eq_refl eq_refl) as [R _].
  split; [exact R|]. split; [reflexivity | exact L].
Defined.

(** X11. An exception of the route reaches the banner of the page: when
    the [try] block of the route throws, the page shows no result and, as
    its error, the message of that exception (the generic message of the
    route when the exception has none, the status line when the message is
    empty). *)
Theorem handleFetch_shows_server_error :
  forall (P : Providers) (wire : Payload -> HomePage.ApiResponse)
         (st : HomePage.State) (err : JsError),
    (forall m, HomePage.api_error (wire (ErrorPayload m)) = Some m) ->
    fst (POST_try P (with_symbols (JStr (HomePage.symbolsInput st)))) = Throw err ->
    let st' := fst (HomePage.handleFetch (served P wire) st) in
    HomePage.results st' = [] /\
    HomePage.apiError st' =
    Some match message err with
         | Some m => if Js.Boolean m then m
                     else "Request failed with status 500"
         | None => generic_message
         end.
Proof.
  intros P wire st err W E st'. subst st'.
  assert (T : symbol_tokens (HomePage.symbolsInput st) <> []).
  { intros T.
    rewrite (POST_try_no_symbols P _ _ (request_raw_string _) T) in E.
    discriminate. }
  rewrite (handleFetch_sent _ st T). cbv zeta.
  unfold served, POST. rewrite E. unfold on_error.
  cbn [status payload HomePage.fetched bind HomePage.ok Z.leb Z.compare
       Pos.compare Pos.compare_cont andb negb].
  rewrite W.
  destruct (message err) as [m|]; [destruct (Js.Boolean m) eqn:B|];
    simpl; rewrite ?B; simpl; now split.
Qed.

(** The route behind a provider that refuses connections. *)
Lemma handleFetch_shows_server_error_witness :
  HomePage.apiError
    (fst (HomePage.handleFetch (served refused error_wire) sample_page)) =
  Some "connect ECONNREFUSED 10.0.0.7:443".
Proof.
  exact (proj2 (handleFetch_shows_server_error refused error_wire sample_page
                  (mkError (Some "connect ECONNREFUSED 10.0.0.7:443"))
                  (fun m => eq_refl) eq_refl)).
Defined.

(** ** The page: the word being typed *)

Lemma last_item_snoc {A : Type} (l : list A) (x : A) :
  Js.last_item (l ++ [x]) = Some x.
Proof.
  unfold Js.last_item, Js.item. rewrite length_app. simpl.
  replace (Z.of_nat (List.length l + 1) - 1)%Z with (Z.of_nat (List.length l))
    by lia.
  destruct (Z.ltb_spec (Z.of_nat (List.length l)) 0); [lia|].
  rewrite Nat2Z.id, nth_error_app2, Nat.sub_diag; [reflexivity | lia].
Qed.

Lemma split_snoc (sep : ascii) (s : string) :
  exists init lastp, Js.split sep s = init ++ [lastp].
Proof.
  destruct (exists_last (split_not_nil sep s)) as [init [lastp E]].
  now exists init, lastp.
Qed.

Lemma extractCurrentWord_snoc (text : string) (init : list string)
      (lastp : string) :
  Js.split "," text = init ++ [lastp] ->
  HomePage.extractCurrentWord text = Js.toUpperCase (Js.trim lastp).
Proof.
  intros E. unfold HomePage.extractCurrentWord.
  rewrite E, last_item_snoc.
  now destruct (Js.trim lastp).
Qed.

(** X12. The word offered for completion is what stands after the last
    comma of the text, trimmed and upper-cased; what stands before that
    comma plays no part. *)
Theorem extractCurrentWord_after_last_comma :
  forall before word : string,
    no_char "," word = true ->
    HomePage.extractCurrentWord (before ++ String "," word) =
    Js.toUpperCase (Js.trim word) /\
    HomePage.extractCurrentWord word = Js.toUpperCase (Js.trim word).
Proof.
  intros before word N. split.
  - apply (extractCurrentWord_snoc _ (Js.split "," before)).
    now rewrite split_append, (split_no_char _ _ N).
  - apply (extractCurrentWord_snoc _ []). now apply split_no_char.
Qed.

(** [tc] after [reliance,]. *)
Lemma extractCurrentWord_after_last_comma_witness :
  HomePage.extractCurrentWord "infy, reliance, tc " = "TC" /\
  HomePage.extractCurrentWord " tc" = "TC".
Proof.
  split.
  - exact (proj1 (extractCurrentWord_after_last_comma "infy, reliance" " tc "
                    eq_refl)).
  - exact (proj2 (extractCurrentWord_after_last_comma "" " tc" eq_refl)).
Defined.

Lemma last_comma (text : string) :
  no_char "," text = true \/
  exists before word,
    text = (before ++ String "," word)%string /\ no_char "," word = true.
Proof.
  induction text as [|c r [N|[before [word [-> N]]]]].
  - now left.
  - destruct (Ascii.eqb c ",") eqn:C.
    + right. apply Ascii.eqb_eq in C. subst c.
      now exists EmptyString, r.
    + left. simpl. now rewrite C, N.
  - right. now exists (String c before), word.
Qed.

Lemma tokens_of_singleton (piece : string) :
  tokens_of [piece] =
  if Js.Boolean (Js.toUpperCase (Js.trim piece))
  then [Js.toUpperCase (Js.trim piece)] else [].
Proof. reflexivity. Qed.

(** X13. The active symbols of a text are those of the text before its
    last comma, followed by the word offered for completion when that word
    is not empty, and by nothing when it is empty; with no comma in the
    text the word is the one active symbol, or there is none.  The word,
    when not empty, is a well-formed symbol. *)
Theorem extractCurrentWord_is_last_active :
  forall text : string,
    let word_symbol :=
      if Js.Boolean (HomePage.extractCurrentWord text)
      then [HomePage.extractCurrentWord text] else [] in
    ((no_char "," text = true /\
      HomePage.activeSymbols text = word_symbol) \/
     (exists before word,
        text = (before ++ String "," word)%string /\
        no_char "," word = true /\
        HomePage.activeSymbols text =
        HomePage.activeSymbols before ++ word_symbol)) /\
    (Js.Boolean (HomePage.extractCurrentWord text) = true ->
     well_formed_symbol (HomePage.extractCurrentWord text) /\
     exists earlier,
       HomePage.activeSymbols text =
       earlier ++ [HomePage.extractCurrentWord text]).
Proof.
  intros text word_symbol. subst word_symbol.
  assert (K : (no_char "," text = true /\
               HomePage.activeSymbols text =
               (if Js.Boolean (HomePage.extractCurrentWord text)
                then [HomePage.extractCurrentWord text] else [])) \/
              (exists before word,
                 text = (before ++ String "," word)%string /\
                 no_char "," word = true /\
                 HomePage.activeSymbols text =
                 HomePage.activeSymbols before ++
                 (if Js.Boolean (HomePage.extractCurrentWord text)
                  then [HomePage.extractCurrentWord text] else []))).
  { destruct (last_comma text) as [N|[before [word [E N]]]].
    - left. split; [exact N|].
      rewrite (extractCurrentWord_snoc text [] text (split_no_char _ _ N)).
      change (HomePage.activeSymbols text) with (tokens_of (Js.split "," text)).
      rewrite (split_no_char _ _ N). apply tokens_of_singleton.
    - right. exists before, word. split; [exact E|]. split; [exact N|].
      assert (S : Js.split "," text = Js.split "," before ++ [word]).
      { now rewrite E, split_append, (split_no_char _ _ N). }
      rewrite (extractCurrentWord_snoc text _ word S).
      change (HomePage.activeSymbols ?x) with (tokens_of (Js.split "," x)).
      rewrite S. unfold tokens_of at 1. rewrite map_app, filter_app.
      fold (tokens_of (Js.split "," before)). fold (tokens_of [word]).
      now rewrite tokens_of_singleton. }
  split; [exact K|].
  intros B. split.
  - destruct (split_snoc "," text) as [init [lastp E]].
    apply (symbol_tokens_well_formed text).
    apply symbol_tokens_In. split; [now apply Boolean_true_iff|].
    exists lastp. split.
    + rewrite E. apply in_or_app. right. now left.
    + apply (extractCurrentWord_snoc text init lastp E).
  - rewrite B in K. destruct K as [[_ ->]|[before [word [_ [_ ->]]]]].
    + now exists [].
    + now exists (HomePage.activeSymbols before).
Qed.

(** The text [infy, reliance, tc]: the word [TC] closes the active
    symbols. *)
Lemma extractCurrentWord_is_last_active_witness :
  exists earlier,
    HomePage.activeSymbols "infy, reliance, tc" = earlier ++ ["TC"].
Proof.
  destruct (proj2 (extractCurrentWord_is_last_active "infy, reliance, tc") eq_refl)
    as [_ [earlier E]].
  exists earlier. exact E.
Defined.

(** ** The page: the suggestions *)

Lemma startsWith_nonempty (s word : string) :
  Js.startsWith s word = true -> Js.Boolean word = true -> Js.Boolean s = true.
Proof.
  unfold Js.startsWith. destruct word; [discriminate|].
  destruct s; [discriminate | reflexivity].
Qed.

Lemma filteredSuggestions_cases (st : HomePage.State) :
  HomePage.filteredSuggestions st =
  if Js.Boolean (HomePage.currentWord st)
  then HomePage.matching (HomePage.currentWord st) (HomePage.stockSuggestions st)
  else [].
Proof.
  unfold HomePage.filteredSuggestions.
  destruct (Js.Boolean (HomePage.currentWord st)); [|reflexivity].
  destruct (HomePage.stockSuggestions st); reflexivity.
Qed.

Lemma matching_In (word : string) (suggestions : list string) (s : string) :
  In s (HomePage.matching word suggestions) ->
  In s suggestions /\ Js.startsWith (Js.toUpperCase s) word = true.
Proof.
  unfold HomePage.matching. intros H. apply firstn_In in H.
  now apply filter_In in H.
Qed.

(** X14. The dropdown holds at most eight suggestions; each one comes from
    the loaded list, is not empty and starts, once upper-cased, with the
    word being typed, which is not empty; and when fewer than eight are
    shown none that matches is missing. *)
Theorem filteredSuggestions_sound :
  forall st : HomePage.State,
    (List.length (HomePage.filteredSuggestions st) <= 8)%nat /\
    (forall s, In s (HomePage.filteredSuggestions st) ->
       In s (HomePage.stockSuggestions st) /\
       Js.startsWith (Js.toUpperCase s) (HomePage.currentWord st) = true /\
       Js.Boolean (HomePage.currentWord st) = true /\
       Js.Boolean s = true) /\
    ((List.length (HomePage.filteredSuggestions st) < 8)%nat ->
     forall s, In s (HomePage.stockSuggestions st) ->
       Js.Boolean (HomePage.currentWord st) = true ->
       Js.startsWith (Js.toUpperCase s) (HomePage.currentWord st) = true ->
       In s (HomePage.filteredSuggestions st)).
Proof.
  intros st. rewrite filteredSuggestions_cases.
  destruct (Js.Boolean (HomePage.currentWord st)) eqn:B.
  - split; [apply firstn_le_length|]. split.
    + intros s H. apply matching_In in H as [I S].
      repeat split; try assumption.
      rewrite <- toUpperCase_Boolean. now apply (startsWith_nonempty _ _ S).
    + unfold HomePage.matching. intros L s I _ S.
      rewrite firstn_all2.
      * apply filter_In. now split.
      * rewrite length_firstn in L. lia.
  - split; [simpl; lia|]. split; [intros s []|]. intros _ s _ K. discriminate.
Qed.

(** ** The page: [insertSuggestion] *)

Lemma set_last_item_snoc {A : Type} (init : list A) (lastp x : A) :
  Js.set_last_item (init ++ [lastp]) x = init ++ [x].
Proof.
  unfold Js.set_last_item. rewrite removelast_last.
  now destruct init.
Qed.

Lemma join_with_snoc (sep : string) (l : list string) (x : string) :
  l <> [] ->
  Js.join_with sep (l ++ [x]) = (Js.join_with sep l ++ sep ++ x)%string.
Proof.
  induction l as [|p l IH]; [congruence|]. intros _.
  destruct l as [|q l']; [reflexivity|].
  change (Js.join_with sep ((p :: q :: l') ++ [x]))
    with (p ++ sep ++ Js.join_with sep ((q :: l') ++ [x]))%string.
  rewrite IH by discriminate.
  change (Js.join_with sep (p :: q :: l'))
    with (p ++ sep ++ Js.join_with sep (q :: l'))%string.
  now rewrite !append_assoc.
Qed.

Lemma tokens_of_app (l1 l2 : list string) :
  tokens_of (l1 ++ l2) = tokens_of l1 ++ tokens_of l2.
Proof. unfold tokens_of. now rewrite map_app, filter_app. Qed.

Lemma tokens_of_pad (pad : string) (l : list string) :
  all_white_space pad = true ->
  tokens_of (map (String.append pad) l) = tokens_of l.
Proof.
  intros A. unfold tokens_of. rewrite map_map. f_equal. apply map_ext.
  intros p. unfold Js.trim. now rewrite (trimStart_padding pad p A).
Qed.

Lemma inserted_split (input suggestion i0 lastp : string)
      (init : list string) :
  Js.split "," input = (i0 :: init) ++ [lastp] ->
  no_char "," suggestion = true ->
  Js.split "," (HomePage.inserted input suggestion) =
  i0 :: map (String.append " ") (init ++ [suggestion] ++ [EmptyString]).
Proof.
  intros E N. unfold HomePage.inserted.
  rewrite E, set_last_item_snoc.
  assert (L : (1 <? List.length ((i0 :: init) ++ [suggestion]))%nat = true).
  { apply Nat.ltb_lt. rewrite length_app. simpl. lia. }
  rewrite L.
  replace (Js.join_with ", " ((i0 :: init) ++ [suggestion]) ++ ", ")%string
    with (Js.join_with ", " (((i0 :: init) ++ [suggestion]) ++ [EmptyString])).
  - rewrite split_join_with; [now rewrite <- !app_assoc | reflexivity |].
    apply Forall_forall. intros p H.
    apply in_app_or in H as [H|[<-|[]]]; [|reflexivity].
    apply in_app_or in H as [H|[<-|[]]]; [|exact N].
    apply (split_pieces_no_char _ input). rewrite E.
    apply in_or_app. now left.
  - rewrite join_with_snoc by (now destruct init).
    now rewrite append_nil_r.
Qed.

Lemma activeSymbols_no_comma (s : string) :
  no_char "," s = true -> HomePage.activeSymbols s = tokens_of [s].
Proof.
  intros N. change (HomePage.activeSymbols s) with (tokens_of (Js.split "," s)).
  now rewrite (split_no_char _ _ N).
Qed.

(** X15. Picking a suggestion (one without a comma) replaces the word
    being typed and keeps what was entered before it: the active symbols
    become those of the text before the last comma, followed by the
    suggestion; the text then ends in a comma and a blank, so that no word
    is being typed.  With no comma in the text the suggestion replaces the
    whole text. *)
Theorem insertSuggestion_active :
  forall (st : HomePage.State) (before word suggestion : string),
    no_char "," word = true ->
    no_char "," suggestion = true ->
    (HomePage.symbolsInput st = (before ++ String "," word)%string ->
     HomePage.activeSymbols
       (HomePage.symbolsInput (HomePage.insertSuggestion st suggestion)) =
     HomePage.activeSymbols before ++ HomePage.activeSymbols suggestion /\
     HomePage.extractCurrentWord
       (HomePage.symbolsInput (HomePage.insertSuggestion st suggestion)) =
     HomePage.currentWord (HomePage.insertSuggestion st suggestion)) /\
    (HomePage.symbolsInput st = word ->
     HomePage.symbolsInput (HomePage.insertSuggestion st suggestion) =
     suggestion).
Proof.
  intros st before word suggestion Nw Ns. split.
  - intros E. cbn [HomePage.insertSuggestion HomePage.symbolsInput
                   HomePage.currentWord]. rewrite E.
    destruct (Js.split "," before) as [|i0 init] eqn:S;
      [now apply split_not_nil in S|].
    assert (K : Js.split "," (before ++ String "," word) = (i0 :: init) ++ [word]).
    { now rewrite split_append, S, (split_no_char _ _ Nw). }
    pose proof (inserted_split _ suggestion i0 word init K Ns) as I.
    split.
    + change (HomePage.activeSymbols ?x) with (tokens_of (Js.split "," x)) at 1.
      rewrite I.
      change (i0 :: ?m) with ([i0] ++ m).
      rewrite tokens_of_app, (tokens_of_pad " " _ eq_refl), !tokens_of_app.
      change (HomePage.activeSymbols before) with (tokens_of (Js.split "," before)).
      rewrite S, (activeSymbols_no_comma _ Ns).
      change (i0 :: init) with ([i0] ++ init). rewrite tokens_of_app.
      change (tokens_of [EmptyString]) with (@nil string).
      now rewrite app_nil_r, app_assoc.
    + apply (extractCurrentWord_snoc _
               (i0 :: map (String.append " ") (init ++ [suggestion])) " ").
      rewrite I, (app_assoc init), (map_app _ (init ++ [suggestion])).
      reflexivity.
  - intros E. cbn [HomePage.insertSuggestion HomePage.symbolsInput]. rewrite E.
    unfold HomePage.inserted.
    rewrite (split_no_char _ _ Nw). simpl. apply append_nil_r.
Qed.

(** The suggestion [TATAMOTORS] while [ta] is typed after [reliance, tcs]. *)
Lemma insertSuggestion_active_witness :
  HomePage.activeSymbols
    (HomePage.symbolsInput
       (HomePage.insertSuggestion
          (HomePage.handleInputChange sample_page "reliance, tcs,ta")
          "TATAMOTORS")) =
  ["RELIANCE"; "TCS"; "TATAMOTORS"].
Proof.
  exact (proj1 (proj1 (insertSuggestion_active
                         (HomePage.handleInputChange sample_page "reliance, tcs,ta")
                         "reliance, tcs" "ta" "TATAMOTORS" eq_refl eq_refl)
                 eq_refl)).
Defined.

(** ** The page: the highlighted row *)

Lemma filteredSuggestions_setSelectedIndex (st : HomePage.State) (i : Z) :
  HomePage.filteredSuggestions (HomePage.setSelectedIndex st i) =
  HomePage.filteredSuggestions st.
Proof. reflexivity. Qed.

Lemma handleInputChange_in_range (st : HomePage.State) (value : string) :
  highlight_in_range (HomePage.handleInputChange st value).
Proof.
  unfold highlight_in_range. rewrite filteredSuggestions_cases.
  cbn [HomePage.handleInputChange HomePage.showSuggestions
       HomePage.selectedIndex HomePage.currentWord HomePage.stockSuggestions].
  rewrite <- (Boolean_nonempty (HomePage.extractCurrentWord value)).
  unfold Js.nonempty.
  destruct (0 <? String.length (HomePage.extractCurrentWord value))%nat; simpl.
  - destruct (0 <? List.length (HomePage.stockSuggestions st))%nat eqn:L; simpl.
    + intros H. apply Nat.ltb_lt in H. lia.
    + discriminate.
  - discriminate.
Qed.

Lemma handleKeyDown_in_range (st : HomePage.State) (key : string) :
  highlight_in_range st ->
  highlight_in_range (fst (HomePage.handleKeyDown st key)).
Proof.
  intros I. unfold HomePage.handleKeyDown.
  destruct (HomePage.showSuggestions st) eqn:S; [|exact I].
  destruct (List.length (HomePage.filteredSuggestions st) =? 0)%nat eqn:L;
    [exact I|].
  cbn [negb orb]. specialize (I S).
  destruct (String.eqb key "ArrowDown").
  { unfold highlight_in_range. cbn [fst]. rewrite filteredSuggestions_setSelectedIndex.
    intros _. cbn [HomePage.setSelectedIndex HomePage.selectedIndex].
    destruct (Z.ltb_spec (HomePage.selectedIndex st)
                (Z.of_nat (List.length (HomePage.filteredSuggestions st)) - 1)); lia. }
  destruct (String.eqb key "ArrowUp").
  { unfold highlight_in_range. cbn [fst]. rewrite filteredSuggestions_setSelectedIndex.
    intros _. cbn [HomePage.setSelectedIndex HomePage.selectedIndex].
    destruct (Z.ltb_spec 0 (HomePage.selectedIndex st)); lia. }
  destruct (if String.eqb key "Enter" then _ else None).
  { intros K. discriminate K. }
  destruct (String.eqb key "Escape").
  { intros K. discriminate K. }
  intros _. exact I.
Qed.

Lemma step_in_range (st : HomePage.State) (ev : HomePage.Event) :
  highlight_in_range st -> highlight_in_range (HomePage.step st ev).
Proof.
  intros I. destruct ev as [value|key|idx|idx|]; cbn [HomePage.step].
  - apply handleInputChange_in_range.
  - now apply handleKeyDown_in_range.
  - destruct (HomePage.showSuggestions st) eqn:S; [|exact I].
    destruct (idx <? List.length (HomePage.filteredSuggestions st))%nat eqn:L;
      [|exact I].
    cbn [andb]. unfold highlight_in_range.
    rewrite filteredSuggestions_setSelectedIndex. intros _.
    apply Nat.ltb_lt in L. cbn [HomePage.setSelectedIndex HomePage.selectedIndex].
    lia.
  - destruct (if HomePage.showSuggestions st then _ else None); [|exact I].
    intros K. discriminate K.
  - intros K. discriminate K.
Qed.

Lemma step_stockSuggestions (st : HomePage.State) (ev : HomePage.Event) :
  HomePage.stockSuggestions (HomePage.step st ev) = HomePage.stockSuggestions st.
Proof.
  destruct ev as [value|key|idx|idx|]; cbn [HomePage.step]; try reflexivity.
  - unfold HomePage.handleKeyDown.
    destruct (negb _ || _); [reflexivity|].
    destruct (String.eqb key "ArrowDown"); [reflexivity|].
    destruct (String.eqb key "ArrowUp"); [reflexivity|].
    destruct (if String.eqb key "Enter" then _ else None); [reflexivity|].
    now destruct (String.eqb key "Escape").
  - now destruct (_ && _).
  - now destruct (if HomePage.showSuggestions st then _ else None).
Qed.

(** X16. Whatever the user types, presses, hovers or clicks, the
    highlighted row stays a row of the dropdown for as long as the dropdown
    is shown, and the list of suggestions is left as loaded. *)
Theorem highlight_stays_in_range :
  forall (st : HomePage.State) (events : list HomePage.Event),
    highlight_in_range st ->
    highlight_in_range (HomePage.run st events) /\
    HomePage.stockSuggestions (HomePage.run st events) =
    HomePage.stockSuggestions st.
Proof.
  intros st events. revert st. unfold HomePage.run.
  induction events as [|ev events IH]; intros st I; [now split|].
  cbn [fold_left].
  destruct (IH (HomePage.step st ev) (step_in_range st ev I)) as [H1 H2].
  split; [exact H1|]. now rewrite H2, step_stockSuggestions.
Qed.

(** Typing [t], then three times the down arrow on a dropdown of two rows:
    the second row is highlighted. *)
Lemma highlight_stays_in_range_witness :
  let st := HomePage.run sample_page
              [HomePage.InputChange "reliance, t"; HomePage.KeyDown "ArrowDown";
               HomePage.KeyDown "ArrowDown"; HomePage.KeyDown "ArrowDown"] in
  HomePage.showSuggestions st = true /\
  HomePage.filteredSuggestions st = ["TCS"; "TATAMOTORS"] /\
  (0 <= HomePage.selectedIndex st < 2)%Z.
Proof.
  intros st. split; [reflexivity|]. split; [reflexivity|].
  exact (proj1 (highlight_stays_in_range sample_page
                  [HomePage.InputChange "reliance, t"; HomePage.KeyDown "ArrowDown";
                   HomePage.KeyDown "ArrowDown"; HomePage.KeyDown "ArrowDown"]
                  (fun H : false = true =>
                     False_ind _ (Bool.diff_false_true H)))
           eq_refl).
Defined.

(** X17. On a shown dropdown with its highlight in range, Enter always
    picks a suggestion: the highlighted one, which comes from the loaded
    list, replaces the word being typed, the dropdown closes and the key
    press is consumed. *)
Theorem handleKeyDown_enter :
  forall st : HomePage.State,
    highlight_in_range st ->
    HomePage.showSuggestions st = true ->
    exists s,
      nth_error (HomePage.filteredSuggestions st)
                (Z.to_nat (HomePage.selectedIndex st)) = Some s /\
      In s (HomePage.stockSuggestions st) /\
      HomePage.handleKeyDown st "Enter" = (HomePage.insertSuggestion st s, true) /\
      HomePage.showSuggestions (HomePage.insertSuggestion st s) = false.
Proof.
  intros st I S. specialize (I S).
  destruct (nth_error (HomePage.filteredSuggestions st)
              (Z.to_nat (HomePage.selectedIndex st))) as [s|] eqn:N.
  - exists s. split; [reflexivity|].
    pose proof (nth_error_In _ _ N) as Hin.
    assert (B : Js.Boolean s = true /\ In s (HomePage.stockSuggestions st)).
    { rewrite filteredSuggestions_cases in Hin.
      destruct (Js.Boolean (HomePage.currentWord st)) eqn:B; [|destruct Hin].
      apply matching_In in Hin as [Hs K]. split; [|exact Hs].
      rewrite <- toUpperCase_Boolean. now apply (startsWith_nonempty _ _ K). }
    destruct B as [B Hs]. split; [exact Hs|]. split; [|reflexivity].
    unfold HomePage.handleKeyDown. rewrite S.
    destruct (List.length (HomePage.filteredSuggestions st) =? 0)%nat eqn:L;
      [apply Nat.eqb_eq in L; lia|].
    cbn [negb orb]. change (String.eqb "Enter" "ArrowDown") with false.
    change (String.eqb "Enter" "ArrowUp") with false.
    change (String.eqb "Enter" "Enter") with true. cbv iota.
    unfold Js.item.
    destruct (Z.ltb_spec (HomePage.selectedIndex st) 0); [lia|].
    now rewrite N, B.
  - exfalso. apply nth_error_None in N. lia.
Qed.

(** Enter after typing [t] and one down arrow. *)
Lemma handleKeyDown_enter_witness :
  let st := HomePage.run sample_page
              [HomePage.InputChange "reliance, t"; HomePage.KeyDown "ArrowDown"] in
  HomePage.symbolsInput (fst (HomePage.handleKeyDown st "Enter")) =
  "reliance, TATAMOTORS, ".
Proof.
  intros st.
  destruct (handleKeyDown_enter st) as [s [N [_ [E _]]]].
  - intros _. subst st. vm_compute. split; [discriminate | reflexivity].
  - reflexivity.
  - rewrite E. vm_compute in N. injection N as <-. reflexivity.
Defined.

(** ** The page with the picker: [handlePickerChange] *)

Lemma tokens_of_split (s : string) :
  HomePage.activeSymbols s = tokens_of (Js.split "," s).
Proof. reflexivity. Qed.

Lemma commas_then_spaces_no_tokens (r : string) :
  PickerPage.commas_then_spaces r = true -> tokens_of (Js.split "," r) = [].
Proof.
  induction r as [|d r IH]; [reflexivity|].
  cbn [PickerPage.commas_then_spaces].
  destruct (Ascii.eqb d ",") eqn:E.
  - intros H. rewrite split_cons, E. now apply IH.
  - intros H. now apply (white_space_no_tokens (String d r)).
Qed.

Lemma strip_trailing_commas_split (s : string) :
  exists tail,
    Js.split "," s = Js.split "," (PickerPage.strip_trailing_commas s) ++ tail /\
    tokens_of tail = [].
Proof.
  induction s as [|c r [tail [E T]]]; [now exists []|].
  cbn [PickerPage.strip_trailing_commas].
  destruct (Ascii.eqb c ",") eqn:C.
  - destruct (PickerPage.commas_then_spaces r) eqn:K; cbn [andb].
    + exists (Js.split "," r). rewrite split_cons, C. split; [reflexivity|].
      now apply commas_then_spaces_no_tokens.
    + exists tail. rewrite !split_cons, C, E. now split.
  - cbn [andb]. exists tail. rewrite !split_cons, C, E. split; [|exact T].
    destruct (Js.split "," (PickerPage.strip_trailing_commas r)) as [|h t] eqn:S;
      [now apply split_not_nil in S | reflexivity].
Qed.

Lemma tokens_of_strip_trailing_commas (s : string) :
  tokens_of (Js.split "," (PickerPage.strip_trailing_commas s)) =
  tokens_of (Js.split "," s).
Proof.
  destruct (strip_trailing_commas_split s) as [tail [E T]].
  now rewrite E, tokens_of_app, T, app_nil_r.
Qed.

Lemma split_suffix_no_char (sep : ascii) (a w : string)
      (init : list string) (l : string) :
  no_char sep w = true ->
  Js.split sep a = init ++ [l] ->
  Js.split sep (a ++ w) = init ++ [(l ++ w)%string].
Proof.
  intros N. revert init l. induction a as [|c a IH]; intros init l E.
  - change ([EmptyString] = init ++ [l]) in E.
    change [EmptyString] with ([] ++ [EmptyString]) in E.
    apply app_inj_tail in E as [<- <-]. now apply split_no_char.
  - destruct (split_snoc sep a) as [init' [l' E']].
    specialize (IH init' l' E').
    change (String c a ++ w)%string with (String c (a ++ w)).
    rewrite split_cons, E' in E. rewrite split_cons, IH.
    destruct (Ascii.eqb c sep).
    + change (EmptyString :: init' ++ [l']) with ((EmptyString :: init') ++ [l']) in E.
      now apply app_inj_tail in E as [<- <-].
    + destruct init' as [|i init'']; cbn [hd tl app] in *.
      * change [String c l'] with ([] ++ [String c l']) in E.
        now apply app_inj_tail in E as [<- <-].
      * change (String c i :: init'' ++ [l'])
          with ((String c i :: init'') ++ [l']) in E.
        now apply app_inj_tail in E as [<- <-].
Qed.

Lemma trimStart_decompose (s : string) :
  exists w, all_white_space w = true /\ s = (w ++ Js.trimStart s)%string.
Proof.
  induction s as [|c r [w [A E]]]; [now exists EmptyString|].
  cbn [Js.trimStart]. destruct (Js.is_white_space c) eqn:W.
  - exists (String c w). simpl. rewrite W, A. split; [reflexivity|].
    now rewrite <- E.
  - now exists EmptyString.
Qed.

Lemma trimEnd_decompose (s : string) :
  exists w, all_white_space w = true /\ s = (Js.trimEnd s ++ w)%string.
Proof.
  induction s as [|c r [w [A E]]]; [now exists EmptyString|].
  rewrite trimEnd_cons. destruct (Js.trimEnd r) as [|d t] eqn:R; cbn [Js.Boolean].
  - simpl in E. subst w. destruct (Js.is_white_space c) eqn:W.
    + exists (String c r). simpl. now rewrite W, A.
    + now exists r.
  - exists w. split; [exact A|]. simpl in *. now rewrite <- E.
Qed.

Lemma tokens_of_trimStart (s : string) :
  tokens_of (Js.split "," (Js.trimStart s)) = tokens_of (Js.split "," s).
Proof.
  destruct (trimStart_decompose s) as [w [A E]].
  rewrite E at 2.
  rewrite (split_prefix_no_char _ _ _ (white_space_no_comma w A)).
  rewrite (split_hd_tl "," (Js.trimStart s)) at 1.
  unfold tokens_of. cbn [map]. unfold Js.trim at 3.
  now rewrite (trimStart_padding w _ A).
Qed.

Lemma tokens_of_trimEnd (s : string) :
  tokens_of (Js.split "," (Js.trimEnd s)) = tokens_of (Js.split "," s).
Proof.
  destruct (trimEnd_decompose s) as [w [A E]].
  destruct (split_snoc "," (Js.trimEnd s)) as [init [l S]].
  rewrite E at 2.
  rewrite (split_suffix_no_char _ _ _ init l (white_space_no_comma w A) S), S.
  rewrite !tokens_of_app. f_equal. unfold tokens_of. cbn [map].
  now rewrite <- (trim_padding EmptyString l w eq_refl A).
Qed.

Lemma tokens_of_trim (s : string) :
  tokens_of (Js.split "," (Js.trim s)) = tokens_of (Js.split "," s).
Proof. unfold Js.trim. now rewrite tokens_of_trimEnd, tokens_of_trimStart. Qed.

Lemma split_pieces_keep_no_char (c sep : ascii) (s piece : string) :
  no_char c s = true -> In piece (Js.split sep s) -> no_char c piece = true.
Proof.
  revert piece. induction s as [|d r IH]; intros piece N.
  - simpl. intros [<-|[]]. reflexivity.
  - simpl in N. apply andb_true_iff in N as [N A].
    rewrite split_cons. destruct (Ascii.eqb d sep).
    + intros [<-|H]; [reflexivity | now apply IH].
    + destruct (Js.split sep r) as [|h t] eqn:S; [now apply split_not_nil in S|].
      cbn [hd tl]. intros [<-|H].
      * simpl. rewrite N. apply IH; [exact A | now left].
      * apply IH; [exact A | now right].
Qed.

Lemma stripExchangeSuffix_no_comma (s : string) :
  no_char "," s = true ->
  no_char "," (HomePage.stripExchangeSuffix s) = true.
Proof.
  intros N. rewrite stripExchangeSuffix_cases.
  destruct (has_exchange_suffix (Js.toUpperCase s));
    rewrite (no_char_toUpperCase _ _ toUpperChar_comma); [|exact N].
  apply (split_pieces_keep_no_char "," "." s _ N).
  rewrite (split_hd_tl "." s) at 2. now left.
Qed.

Lemma trim_nil_no_tokens (s : string) :
  Js.Boolean (Js.trim s) = false -> HomePage.activeSymbols s = [].
Proof.
  intros B. apply (white_space_no_tokens s).
  rewrite <- is_blank_all_white_space. unfold is_blank. now rewrite B.
Qed.

(** X18. [handlePickerChange] records the trimmed, upper-cased pick and
    leaves the text box alone when the pick, stripped of its exchange
    suffix, is empty or already among the active symbols.  Otherwise (for a
    pick without a comma) the active symbols become the former ones
    followed by the stripped pick, whatever commas and blanks ended the
    text; and no symbol becomes active twice when the stripped pick has no
    blank at its end. *)
Theorem handlePickerChange_appends :
  forall symbolsInput next : string,
    let value := Js.toUpperCase (Js.trim next) in
    let base := PickerPage.stripExchangeSuffix value in
    let after := fst (PickerPage.handlePickerChange symbolsInput next) in
    snd (PickerPage.handlePickerChange symbolsInput next) = value /\
    (Js.Boolean base = false \/
     Js.mem base (HomePage.activeSymbols symbolsInput) = true ->
     after = symbolsInput) /\
    (Js.Boolean base = true ->
     Js.mem base (HomePage.activeSymbols symbolsInput) = false ->
     no_char "," next = true ->
     HomePage.activeSymbols after =
     HomePage.activeSymbols symbolsInput ++ tokens_of [base] /\
     (Js.trim base = base -> NoDup (HomePage.activeSymbols symbolsInput) ->
      NoDup (HomePage.activeSymbols after))).
Proof.
  intros symbolsInput next value base after. subst after.
  unfold PickerPage.handlePickerChange. fold value. fold base.
  assert (V : Js.Boolean value = false -> Js.Boolean base = false).
  { intros H. destruct value; [reflexivity | discriminate]. }
  split; [|split].
  - destruct (Js.Boolean value); cbn [negb]; [|reflexivity].
    destruct (Js.Boolean base); cbn [negb]; [|reflexivity].
    now destruct (Js.mem base _).
  - intros H. destruct (Js.Boolean value) eqn:Bv; cbn [negb]; [|reflexivity].
    destruct (Js.Boolean base) eqn:Bb; cbn [negb]; [|reflexivity].
    destruct H as [H|H]; [discriminate|]. now rewrite H.
  - intros Bb M N.
    destruct (Js.Boolean value) eqn:Bv; [|now rewrite V in Bb].
    rewrite Bb, M. cbn [negb fst].
    assert (Nb : no_char "," base = true).
    { apply stripExchangeSuffix_no_comma. unfold value.
      rewrite (no_char_toUpperCase _ _ toUpperChar_comma).
      now apply no_char_trim. }
    assert (E : HomePage.activeSymbols
                  (if Js.Boolean (Js.trim symbolsInput)
                   then (PickerPage.strip_trailing_commas (Js.trim symbolsInput)
                         ++ ", " ++ base)%string
                   else base) =
                HomePage.activeSymbols symbolsInput ++ tokens_of [base]).
    { destruct (Js.Boolean (Js.trim symbolsInput)) eqn:Bx.
      - rewrite tokens_of_split.
        change (", " ++ base)%string with (String "," (" " ++ base)).
        rewrite split_append, tokens_of_app.
        rewrite tokens_of_strip_trailing_commas, tokens_of_trim.
        f_equal.
        rewrite split_no_char by (simpl; exact Nb).
        apply (tokens_of_pad " " [base] eq_refl).
      - rewrite (trim_nil_no_tokens _ Bx). now apply activeSymbols_no_comma. }
    split; [exact E|].
    intros Tb D. rewrite E. unfold tokens_of. cbn [map filter].
    rewrite Tb.
    assert (U : Js.toUpperCase base = base).
    { unfold base, PickerPage.stripExchangeSuffix.
      rewrite stripExchangeSuffix_cases.
      destruct (has_exchange_suffix (Js.toUpperCase value));
        apply toUpperCase_idempotent. }
    rewrite U, Bb.
    apply NoDup_app; [exact D | repeat constructor; intros [] |].
    intros a Ha [<-|[]].
    apply mem_true_iff in Ha. congruence.
Qed.

(** Picking [infy.ns] on a text that ends in commas, and [tcs.bo] when [TCS]
    is active. *)
Lemma handlePickerChange_appends_witness :
  HomePage.activeSymbols
    (fst (PickerPage.handlePickerChange "reliance, tcs,, " " infy.ns ")) =
  ["RELIANCE"; "TCS"; "INFY"] /\
  fst (PickerPage.handlePickerChange "reliance, tcs" "tcs.bo") = "reliance, tcs".
Proof.
  destruct (handlePickerChange_appends "reliance, tcs,, " " infy.ns ")
    as [_ [_ A]].
  destruct (handlePickerChange_appends "reliance, tcs" "tcs.bo") as [_ [U _]].
  split.
  - exact (proj1 (A eq_refl eq_refl eq_refl)).
  - exact (U (or_intror eq_refl)).
Defined.

(** ** The symbols route behind the dropdown *)

Lemma run_stockSuggestions (st : HomePage.State) (events : list HomePage.Event) :
  HomePage.stockSuggestions (HomePage.run st events) =
  HomePage.stockSuggestions st.
Proof.
  revert st. unfold HomePage.run.
  induction events as [|ev events IH]; intros st; [reflexivity|].
  cbn [fold_left]. now rewrite IH, step_stockSuggestions.
Qed.

Lemma step_stays_closed (st : HomePage.State) (ev : HomePage.Event) :
  HomePage.stockSuggestions st = [] ->
  HomePage.showSuggestions st = false ->
  HomePage.showSuggestions (HomePage.step st ev) = false.
Proof.
  intros E S. destruct ev as [value|key|idx|idx|]; cbn [HomePage.step].
  - cbn [HomePage.handleInputChange HomePage.showSuggestions]. rewrite E.
    cbn [List.length Nat.ltb Nat.leb]. now rewrite andb_false_r.
  - unfold HomePage.handleKeyDown. now rewrite S.
  - now rewrite S.
  - now rewrite S.
  - reflexivity.
Qed.

Lemma run_stays_closed (st : HomePage.State) (events : list HomePage.Event) :
  HomePage.stockSuggestions st = [] ->
  HomePage.showSuggestions st = false ->
  HomePage.showSuggestions (HomePage.run st events) = false.
Proof.
  revert st. unfold HomePage.run.
  induction events as [|ev events IH]; intros st E S; [exact S|].
  cbn [fold_left]. apply IH.
  - now rewrite step_stockSuggestions.
  - now apply step_stays_closed.
Qed.

Lemma upper_case_fixed (s : string) : upper_case s -> Js.toUpperCase s = s.
Proof.
  unfold upper_case. induction s as [|c r IH]; intros U; [reflexivity|].
  simpl. rewrite IH by (intros d Hd; apply U; now right).
  unfold Js.toUpperChar. rewrite (U c) by now left. reflexivity.
Qed.

(** X19. With the suggestions loaded from the symbols route, every
    suggestion the dropdown ever holds is a symbol of the reference file and
    starts, as it stands, with the word being typed; and when the file
    could not be read the dropdown never opens, whatever the user does. *)
Theorem suggestions_from_file :
  forall (file : FileRead) (events : list HomePage.Event),
    let st := HomePage.run
                (HomePage.fetchSymbols HomePage.initial (symbols_served file))
                events in
    (forall s, In s (HomePage.filteredSuggestions st) ->
       In s (symbols_list (GET file)) /\
       Js.startsWith s (HomePage.currentWord st) = true) /\
    ((exists e, file = ReadThrows e) ->
     HomePage.showSuggestions st = false /\
     HomePage.filteredSuggestions st = []).
Proof.
  intros file events st.
  assert (K : HomePage.stockSuggestions st = symbols_list (GET file)).
  { subst st. now rewrite run_stockSuggestions. }
  split.
  - intros s H. rewrite filteredSuggestions_cases in H.
    destruct (Js.Boolean (HomePage.currentWord st)); [|destruct H].
    apply matching_In in H as [I S]. rewrite K in I. split; [exact I|].
    rewrite <- S. f_equal. symmetry. apply upper_case_fixed.
    destruct file as [text|e]; [|destruct I].
    cbn [GET symbols_list] in I. rewrite parse_csv_spec in I.
    pose proof (symbols_of_lines_shape (rows_below_header text)) as F.
    rewrite Forall_forall in F. now apply (F s I).
  - intros [e ->]. split.
    + subst st. now apply run_stays_closed.
    + rewrite filteredSuggestions_cases, K.
      now destruct (Js.Boolean (HomePage.currentWord st)).
Qed.

(** Typing [t] on the sample file, and on a file that cannot be read. *)
Lemma suggestions_from_file_witness :
  HomePage.filteredSuggestions
    (HomePage.run
       (HomePage.fetchSymbols HomePage.initial
          (symbols_served (FileContent sample_csv)))
       [HomePage.InputChange "infy, t"]) = ["TCS"] /\
  HomePage.showSuggestions
    (HomePage.run
       (HomePage.fetchSymbols HomePage.initial
          (symbols_served (ReadThrows (mkError None))))
       [HomePage.InputChange "infy, t"]) = false.
Proof.
  split; [reflexivity|].
  exact (proj1 (proj2 (suggestions_from_file (ReadThrows (mkError None))
                         [HomePage.InputChange "infy, t"])
                  (ex_intro _ (mkError None) eq_refl))).
Defined.
